(** * Lockfile resolution graph of the Satisfactory mod launcher API

    A shallow embedding of the lockfile module ([src/unnamed/part_000]: the
    resolution graph [LockfileGraph], [getItemData], [lockfileDifference]) and
    of the catalog queries it calls ([src/unnamed/part_001]:
    [getSMLVersionInfo], [findAllVersionsMatchingAll]), with the properties of
    the design document stated against it.  Line numbers are those of
    [part_000] unless [part_001] is named.  The modules [./utils],
    [./modHandler] and [./errors] that [part_000] imports are not among the
    sources. *)

From Stdlib Require Import List String Ascii ZArith NArith Bool Lia DecimalString Sorted.
Import ListNotations.
Open Scope string_scope.

(** ** JavaScript objects used as string-keyed maps

    An object literal is kept as the list of its entries in iteration order
    ([Object.entries]), because [validate] walks a dependency map in that
    order.  Lookups take the first entry of a key; an object built by the
    functions below never holds a key twice.  (Keys that read as array
    indices, which JavaScript lists first, do not occur among item ids.) *)

Section JsObject.
Variable V : Type.

Definition JsObject := list (string * V).

(** [k in o] *)
Fixpoint obj_in (k : string) (o : JsObject) : bool :=
  match o with
  | [] => false
  | (k', _) :: o' => if String.eqb k' k then true else obj_in k o'
  end.

(** [o[k]] *)
Fixpoint obj_get (o : JsObject) (k : string) : option V :=
  match o with
  | [] => None
  | (k', v) :: o' => if String.eqb k' k then Some v else obj_get o' k
  end.

(** [o[k] = v]: an existing key keeps its place, a new one goes last. *)
Fixpoint obj_set (o : JsObject) (k : string) (v : V) : JsObject :=
  match o with
  | [] => [(k, v)]
  | (k', v') :: o' =>
      if String.eqb k' k then (k', v) :: o' else (k', v') :: obj_set o' k v
  end.

(** [Object.keys(o)] and [Object.entries(o)] *)
Definition Object_keys (o : JsObject) : list string := map fst o.
Definition Object_entries (o : JsObject) : list (string * V) := o.
End JsObject.

Arguments obj_in {V} k o.
Arguments obj_get {V} o k.
Arguments obj_set {V} o k v.
Arguments Object_keys {V} o.
Arguments Object_entries {V} o.

(** A key that JavaScript may take for an integer index and list before the
    other keys: a string of decimal digits.  (Every canonical array index,
    [0], [1], [42], is one.)  Where no key of an object is of this kind, the
    object lists its keys in the order they were set. *)
Definition index_like (k : string) : bool :=
  negb (String.eqb k "")
  && forallb (fun c => ((48 <=? N_of_ascii c) && (N_of_ascii c <=? 57))%N)
       (list_ascii_of_string k).

(** Truthiness of the optional values the code tests with [if (x)]. *)
Definition truthy_bool (b : option bool) : bool :=
  match b with Some true => true | _ => false end.

Definition truthy_string (s : option string) : bool :=
  match s with Some s' => negb (String.eqb s' "") | None => false end.

(** [`${x}`] for a value that is a string or [null]. *)
Definition template (x : option string) : string :=
  match x with Some s => s | None => "null" end.

(** [n.toString()] for a non-negative integer. *)
Definition Number_toString (n : N) : string :=
  NilZero.string_of_uint (N.to_uint n).

(** ** Data model (lines 15-38) *)

Definition ItemVersionList := JsObject string.

Record LockfileGraphNode := mkNode {
  id : string;
  version : string;
  dependencies : ItemVersionList;
  isInManifest : option bool
}.

Record LockfileItemData := mkItem {
  item_version : string;
  item_dependencies : ItemVersionList
}.

Definition Lockfile := JsObject LockfileItemData.

Record LockfileDiff := mkDiff {
  install : ItemVersionList;
  uninstall : list string
}.

(** Nodes are objects, compared by reference in the source ([indexOf]).  The
    embedding has no heap: the resolver never writes to a node once it is
    built, and a record stands for the object that holds it. *)
Definition entry_eq_dec (p q : string * string) : {p = q} + {p <> q}.
Proof. decide equality; apply string_dec. Defined.

Definition node_eq_dec (a b : LockfileGraphNode) : {a = b} + {a <> b}.
Proof.
  decide equality.
  - decide equality. apply bool_dec.
  - apply (list_eq_dec entry_eq_dec).
  - apply string_dec.
  - apply string_dec.
Defined.

(** ** Catalog records ([part_001], lines 56-80 and 270-278): the fields the
    resolver reads *)

Record FicsitAppVersion := mkAppVersion {
  fv_mod_id : string;
  fv_version : string;
  fv_sml_version : string
}.

Record FicsitAppMod := mkAppMod {
  fm_id : string;
  fm_versions : list FicsitAppVersion
}.

Record FicsitAppSMLVersion := mkSMLVersion {
  smlv_version : string;
  satisfactory_version : N
}.

(** Modelled from the spec: the [Mod] record of [./modHandler] is not among
    the sources; section 6 gives the metadata fields [mod_id], [version],
    optional [dependencies] and optional [sml_version]. *)
Record Mod := mkMod {
  mod_id : string;
  mod_version : string;
  mod_dependencies : option ItemVersionList;
  sml_version : option string
}.

(** ** Errors and effects *)

(** The error classes that [part_000] imports from [./errors], each with its
    message; [OtherError] is anything else that is thrown (a rejected request,
    a [TypeError]). *)
Inductive Error :=
| UnsolvableDependencyError (message : string)
| DependencyManifestMismatchError (message : string)
| InvalidLockfileOperation (message : string)
| ModNotFoundError (message : string)
| OtherError (message : string).

(** A promise that settles: resolved with a value or rejected with an error. *)
Inductive Result (A : Type) :=
| Ok (a : A)
| Err (e : Error).

Arguments Ok {A} a.
Arguments Err {A} e.

(** A method of [LockfileGraph]: it reads and writes [this.nodes], and what it
    wrote stays written when it throws. *)
Definition Graph (A : Type) := list LockfileGraphNode -> Result A * list LockfileGraphNode.

Definition ret {A} (a : A) : Graph A := fun nodes => (Ok a, nodes).

Definition throw {A} (e : Error) : Graph A := fun nodes => (Err e, nodes).

Definition bind {A B} (m : Graph A) (k : A -> Graph B) : Graph B :=
  fun nodes =>
    match m nodes with
    | (Ok a, nodes') => k a nodes'
    | (Err e, nodes') => (Err e, nodes')
    end.

(** [await p] for a promise [p] that does not touch the graph. *)
Definition await {A} (p : Result A) : Graph A := fun nodes => (p, nodes).

(** [try { m } catch (e) { handler e }] *)
Definition try_catch {A} (m : Graph A) (handler : Error -> Graph A) : Graph A :=
  fun nodes =>
    match m nodes with
    | (Ok a, nodes') => (Ok a, nodes')
    | (Err e, nodes') => handler e nodes'
    end.

(** Reading [this.nodes]. *)
Definition gets {A} (f : list LockfileGraphNode -> A) : Graph A :=
  fun nodes => (Ok (f nodes), nodes).

Declare Scope graph_scope.
Delimit Scope graph_scope with graph.
Notation "x <- m ;; k" := (bind m (fun x => k))
  (at level 61, m at next level, right associativity) : graph_scope.
Notation "m ;; k" := (bind m (fun _ => k))
  (at level 61, right associativity) : graph_scope.

(** ** Helpers of [./utils] *)

(** Modelled from the spec: [removeArrayElement] of [./utils] is not among
    the sources; section 4.4 has [remove] "remove by identity; fails silently
    if absent" and section 9 "by reference equality via linear scan": the
    first occurrence found by [indexOf] is spliced out. *)
Fixpoint removeArrayElement (array : list LockfileGraphNode) (element : LockfileGraphNode)
  : list LockfileGraphNode :=
  match array with
  | [] => []
  | x :: rest =>
      if node_eq_dec x element then rest else x :: removeArrayElement rest element
  end.

(** Modelled from the spec: [removeArrayElementWhere] of [./utils] is not
    among the sources; section 4.4 describes the removal of dangling nodes as
    "a single linear pass" over the array: the elements on which the
    condition holds are collected, then each is removed.  The condition is
    evaluated on the array as it is before the first removal. *)
Definition removeArrayElementWhere (array : list LockfileGraphNode)
    (condition : LockfileGraphNode -> bool) : list LockfileGraphNode :=
  let toRemove := filter condition array in
  fold_left removeArrayElement toRemove array.

(** Modelled from the spec: [forEachAsync] of [./utils] is not among the
    sources; section 5 makes the resolver single-threaded and the visit
    ordered: the callback is awaited on each element in turn, and the first
    rejection ends the iteration.  This is the loop over an array that the
    callback does not change (the entries of a dependency map). *)
Fixpoint forEachAsync {T} (array : list T) (callback : T -> Graph unit) : Graph unit :=
  match array with
  | [] => ret tt
  | x :: rest => bind (callback x) (fun _ => forEachAsync rest callback)
  end.

(** Modelled from the spec: [versionSatisfiesAll] of [./utils] is not among
    the sources; section 4.1 has [satisfiesAll(v, [c])] as the conjunction of
    [satisfies(v, c)]. *)
Definition versionSatisfiesAll (satisfies : string -> string -> bool)
    (version : string) (versionConstraints : list string) : bool :=
  forallb (satisfies version) versionConstraints.

(** ** [lockfileDifference] (lines 183-197) *)

(** [lockfile[id].version], read only under [id in lockfile]. *)
Definition version_of (lockfile : Lockfile) (k : string) : option string :=
  option_map item_version (obj_get lockfile k).

(** [a !== b] on two versions. *)
Definition strict_neq (a b : option string) : bool :=
  match a, b with
  | Some x, Some y => negb (String.eqb x y)
  | None, None => false
  | _, _ => true
  end.

Definition lockfileDifference (oldLockfile newLockfile : Lockfile) : LockfileDiff :=
  let uninstall :=
    fold_left (fun uninstall k =>
      if negb (obj_in k newLockfile)
         || strict_neq (version_of oldLockfile k) (version_of newLockfile k)
      then (uninstall ++ [k])%list else uninstall)
      (Object_keys oldLockfile) [] in
  let install :=
    fold_left (fun install k =>
      if negb (obj_in k oldLockfile)
         || strict_neq (version_of oldLockfile k) (version_of newLockfile k)
      then match obj_get newLockfile k with
           | Some item => obj_set install k (item_version item)
           | None => install  (* not reached: [k] is a key of [newLockfile] *)
           end
      else install)
      (Object_keys newLockfile) [] in
  mkDiff install uninstall.

(** ** The resolver *)

(** The [semver] package: [satisfies(version, range)], [compare(a, b)]
    (negative, zero or positive), [coerce(s)] (a [SemVer] or [null]; a
    [SemVer] is kept as its version string) and [valid(v)] (the version
    string or [null]). *)
Record Semver := mkSemver {
  satisfies : string -> string -> bool;
  compare : string -> string -> Z;
  coerce : string -> option string;
  valid : option string -> option string
}.

(** The catalog: what ficsit.app answers to [getAvailableSMLVersions()] and
    [getMod(id)] ([getMod] caches [res.getMod], which is [null] for an unknown
    mod), and what the mod cache answers to [getCachedMod(id, version)].  Each
    may reject.  The HTTP query and the five-minute request cache are outside
    the model. *)
Record Catalog := mkCatalog {
  getAvailableSMLVersions : Result (list FicsitAppSMLVersion);
  getMod : string -> Result (option FicsitAppMod);
  getCachedMod : string -> string -> Result Mod
}.

Section Resolver.

Variable semver : Semver.
Variable catalog : Catalog.

(** [part_001], lines 309-312 *)
Definition getSMLVersionInfo (version : string) : Result (option FicsitAppSMLVersion) :=
  match getAvailableSMLVersions catalog with
  | Ok versions =>
      Ok (find (fun smlVersion => String.eqb (smlv_version smlVersion) version) versions)
  | Err e => Err e
  end.

(** [part_001], lines 320-332.  Reading [.versions] of [null] is a
    [TypeError]. *)
Definition findAllVersionsMatchingAll (modID : string) (versionConstraints : list string)
  : Result (list string) :=
  if String.eqb modID "SML" then
    match getAvailableSMLVersions catalog with
    | Ok smlVersions =>
        Ok (map smlv_version
              (filter (fun smlVersion =>
                         versionSatisfiesAll (satisfies semver) (smlv_version smlVersion)
                           versionConstraints)
                      smlVersions))
    | Err e => Err e
    end
  else
    match getMod catalog modID with
    | Ok (Some modInfo) =>
        Ok (map fv_version
              (filter (fun modVersion =>
                         versionSatisfiesAll (satisfies semver) (fv_version modVersion)
                           versionConstraints)
                      (fm_versions modInfo)))
    | Ok None => Err (OtherError "TypeError: Cannot read property 'versions' of null")
    | Err e => Err e
    end.

(** The dependency map of a mod's metadata, as lines 53-56 leave it.  (The
    source writes the [SML] entry into the cached object itself; writing it
    again on a later call changes nothing.) *)
Definition modDependencies (modData : Mod) : ItemVersionList :=
  let dependencies :=
    match mod_dependencies modData with
    | Some dependencies => dependencies
    | None => []
    end in
  match sml_version modData with
  | Some loader =>
      if negb (String.eqb loader "") then
        obj_set dependencies "SML" (">=" ++ template (valid semver (coerce semver loader)))
      else dependencies
  | None => dependencies
  end.

(** lines 40-62 *)
Definition getItemData (id : string) (version : string) : Result LockfileGraphNode :=
  if String.eqb id "SML" then
    match getSMLVersionInfo version with
    | Ok None => Err (ModNotFoundError ("SML@" ++ version ++ " not found"))
    | Ok (Some smlVersionInfo) =>
        Ok (mkNode id version
              [("SatisfactoryGame",
                ">=" ++ template (valid semver (coerce semver
                           (Number_toString (satisfactory_version smlVersionInfo)))))]
              None)
    | Err e => Err e
    end
  else if String.eqb id "SatisfactoryGame" then
    Err (InvalidLockfileOperation "SMLauncher cannot modify Satisfactory Game version. This should never happen, unless Satisfactory was not temporarily added to the lockfile as a manifest entry")
  else
    match getCachedMod catalog id version with
    | Ok modData =>
        Ok (mkNode (mod_id modData) (mod_version modData) (modDependencies modData) None)
    | Err e => Err e
    end.

(** [array.sort((a, b) => compare(a, b))]: a stable sort, ascending. *)
Fixpoint sort_insert (a : string) (sorted : list string) : list string :=
  match sorted with
  | [] => [a]
  | b :: rest =>
      if (compare semver a b <=? 0)%Z then a :: b :: rest else b :: sort_insert a rest
  end.

Definition Array_sort (array : list string) : list string :=
  fold_right sort_insert [] array.

(** *** [class LockfileGraph] (lines 64-181) *)

Definition has_id (i : string) (graphNode : LockfileGraphNode) : bool :=
  String.eqb (id graphNode) i.

(** lines 147-149 *)
Definition getDependants (nodes : list LockfileGraphNode) (node : LockfileGraphNode)
  : list LockfileGraphNode :=
  filter (fun graphNode => obj_in (id node) (dependencies graphNode)) nodes.

(** lines 143-145 *)
Definition roots (nodes : list LockfileGraphNode) : list LockfileGraphNode :=
  filter (fun graphNode => Nat.eqb (List.length (getDependants nodes graphNode)) 0) nodes.

(** lines 151-154 *)
Definition remove (node : LockfileGraphNode) : Graph unit :=
  fun nodes => (Ok tt, removeArrayElement nodes node).

(** [this.nodes.push(node)] *)
Definition push (node : LockfileGraphNode) : Graph unit :=
  fun nodes => (Ok tt, (nodes ++ [node])%list).

(** lines 156-172 *)
Definition add (node : LockfileGraphNode) : Graph unit :=
  fun nodes =>
    if existsb (has_id (id node)) nodes then (Ok tt, nodes)
    else
      try_catch (push node)
        (fun e => bind (remove node) (fun _ => throw e)) nodes.

(** lines 101-115: the candidate loop.  [stack] is the sorted array read from
    its end, so its head is what [pop()] returns.  The loop yields [found]. *)
Fixpoint tryVersions (dependencyID : string) (stack : list string) : Graph bool :=
  match stack with
  | [] => ret false
  | version :: rest =>
      if String.eqb version "" then ret false
      else
        bind (await (getItemData dependencyID version)) (fun itemData =>
        try_catch
          (bind (add itemData) (fun _ => ret true))
          (fun _ => bind (remove itemData) (fun _ => tryVersions dependencyID rest)))
  end.

Definition mismatch_message (dependencyID : string) (dependencyNode node : LockfileGraphNode)
    (versionConstraint : string) : string :=
  "Dependency " ++ dependencyID ++ "@" ++ version dependencyNode
    ++ " is NOT GOOD for " ++ id node ++ "@" ++ version node
    ++ " (requires " ++ versionConstraint ++ "), and it is in the manifest".

Definition unsolvable_message (dependencyID : string) (node : LockfileGraphNode) : string :=
  "No version found for dependency " ++ dependencyID ++ " of " ++ id node.

(** lines 92-94 *)
Definition collectConstraints (dependencyID : string) (nodes : list LockfileGraphNode)
  : list string :=
  map (fun graphNode =>
         match obj_get (dependencies graphNode) dependencyID with
         | Some c => c
         | None => "undefined"
         end)
      (filter (fun graphNode => obj_in dependencyID (dependencies graphNode)) nodes).

(** lines 80-124: the callback of [validate], for one dependency. *)
Definition validateDependency (node : LockfileGraphNode) (dependency : string * string)
  : Graph unit :=
  let dependencyID := fst dependency in
  let versionConstraint := snd dependency in
  bind (gets (find (has_id dependencyID))) (fun dependencyNode =>
  if match dependencyNode with
     | None => true
     | Some d => negb (satisfies semver (version d) versionConstraint)
     end
  then
    bind (match dependencyNode with
          | Some d =>
              if truthy_bool (isInManifest d) then
                throw (DependencyManifestMismatchError
                         (mismatch_message dependencyID d node versionConstraint))
              else remove d
          | None => ret tt
          end) (fun _ =>
    bind (gets (collectConstraints dependencyID)) (fun versionConstraints =>
    bind (await (findAllVersionsMatchingAll dependencyID versionConstraints))
      (fun matchingDependencyVersions =>
    bind (tryVersions dependencyID (rev (Array_sort matchingDependencyVersions)))
      (fun found =>
    if negb found then
      bind (match dependencyNode with
            | Some d => add d
            | None => ret tt
            end) (fun _ =>
      throw (UnsolvableDependencyError (unsolvable_message dependencyID node)))
    else ret tt))))
  else ret tt).

(** lines 78-126 *)
Definition validate (node : LockfileGraphNode) : Graph unit :=
  forEachAsync (Object_entries (dependencies node)) (validateDependency node).

(** lines 128-130.  [forEachAsync] runs here over [this.nodes] itself, which
    [validate] changes under it: the loop reads the array by index, as it is
    at each turn.  [None] is a loop that has not ended within [fuel] turns. *)
Fixpoint validateAll_from (fuel i : nat) (nodes : list LockfileGraphNode)
  : option (Result unit) * list LockfileGraphNode :=
  match fuel with
  | O => (None, nodes)
  | S fuel' =>
      match nth_error nodes i with
      | None => (Some (Ok tt), nodes)
      | Some graphNode =>
          match validate graphNode nodes with
          | (Ok _, nodes') => validateAll_from fuel' (S i) nodes'
          | (Err e, nodes') => (Some (Err e), nodes')
          end
      end
  end.

Definition validateAll (fuel : nat) (nodes : list LockfileGraphNode)
  : option (Result unit) * list LockfileGraphNode :=
  validateAll_from fuel 0 nodes.

(** lines 67-76 *)
Definition fromLockfile (lockfile : Lockfile) : Graph unit :=
  fun nodes =>
    (Ok tt,
     fold_left (fun nodes entry =>
                  match obj_get lockfile entry with
                  | Some item =>
                      (nodes ++ [mkNode entry (item_version item) (item_dependencies item)
                                  None])%list
                  | None => nodes
                  end)
               (Object_keys lockfile) nodes).

(** lines 132-141.  The entries are listed in the order the ids were first
    set, which is the order of the object's keys as long as no id is
    [index_like]. *)
Definition toLockfile (nodes : list LockfileGraphNode) : Lockfile :=
  fold_left (fun lockfile node =>
               obj_set lockfile (id node) (mkItem (version node) (dependencies node)))
            nodes [].

(** lines 174-176 *)
Definition isNodeDangling (nodes : list LockfileGraphNode) (node : LockfileGraphNode) : bool :=
  Nat.eqb (List.length (getDependants nodes node)) 0 && negb (truthy_bool (isInManifest node)).

(** lines 178-180 *)
Definition cleanup : Graph unit :=
  fun nodes => (Ok tt, removeArrayElementWhere nodes (isNodeDangling nodes)).

End Resolver.

(** ** More of the catalog client ([part_001]) *)

(** [array.sort(comparator)] for any element type: a stable sort, ascending
    for the comparator. *)
Fixpoint sort_insert_by {T : Type} (comparator : T -> T -> Z) (a : T) (sorted : list T)
  : list T :=
  match sorted with
  | [] => [a]
  | b :: rest =>
      if (comparator a b <=? 0)%Z then a :: b :: rest
      else b :: sort_insert_by comparator a rest
  end.

Definition Array_sort_by {T : Type} (comparator : T -> T -> Z) (array : list T) : list T :=
  fold_right (sort_insert_by comparator) [] array.

Section CatalogClient.

Variable semver : Semver.
Variable catalog : Catalog.

(** [part_001], lines 255-267: the [forEach] with its two variables
    [finalVersion] and [found]. *)
Definition findVersionMatchingAll (modID : string) (versionConstraints : list string)
  : Result (option string) :=
  match getMod catalog modID with
  | Ok (Some modInfo) =>
      let state :=
        fold_left (fun (state : string * bool) modVersion =>
                     let (finalVersion, found) := state in
                     if negb found
                        && versionSatisfiesAll (satisfies semver) (fv_version modVersion)
                             versionConstraints
                     then (fv_version modVersion, true)
                     else (finalVersion, found))
                  (fm_versions modInfo) ("", false) in
      Ok (if snd state then Some (fst state) else None)
  | Ok None => Err (OtherError "TypeError: Cannot read property 'versions' of null")
  | Err e => Err e
  end.

(** [compare(a, b)] builds a [SemVer] of each argument and throws a
    [TypeError] when one of them is no version; these are the strings for
    which [valid] gives [null]. *)
Definition is_version (v : string) : bool :=
  match valid semver (Some v) with
  | Some _ => true
  | None => false
  end.

(** [versions.sort((a, b) => -compare(a.version, b.version))] followed by
    [versions[0]].  Sorting an array of two elements or more hands every
    element to the comparator, so the sort throws when one of the versions is
    no version; an array of fewer elements is not compared at all.
    [versions[0]] of an empty array is [undefined].  (The message of the
    [TypeError] quotes the string that was no version; which one, when there
    are several, depends on the order of the comparisons.  The sort is in
    place, on the array the request cache holds; the embedding gives the
    value returned.) *)
Definition newestFirst {T : Type} (version_of_item : T -> string) (versions : list T)
  : Result (option T) :=
  if (2 <=? List.length versions)%nat
     && negb (forallb (fun item => is_version (version_of_item item)) versions)
  then Err (OtherError "TypeError: Invalid Version")
  else
    Ok (hd_error
          (Array_sort_by
             (fun a b => (- compare semver (version_of_item a) (version_of_item b))%Z)
             versions)).

(** [part_001], lines 314-318 *)
Definition getLatestSMLVersion : Result (option FicsitAppSMLVersion) :=
  match getAvailableSMLVersions catalog with
  | Ok versions => newestFirst smlv_version versions
  | Err e => Err e
  end.

(** What ficsit.app answers to [getModVersions(id)] ([part_001], lines
    212-247), taken as given like the answers of [Catalog]. *)
Variable getModVersions : string -> Result (list FicsitAppVersion).

(** [part_001], lines 249-253 *)
Definition getModLatestVersion (modID : string) : Result (option FicsitAppVersion) :=
  match getModVersions modID with
  | Ok versions => newestFirst fv_version versions
  | Err e => Err e
  end.

End CatalogClient.

(** ** The request cache ([part_001], lines 9-53) and the requests that go
    through it *)

(** A value of type [any]: what [JSON.parse] gives, and [undefined].  Numbers
    are the integral ones. *)
#[local] Unset Elimination Schemes.
Inductive Json :=
| JUndefined
| JNull
| JBool (b : bool)
| JNumber (n : Z)
| JString (s : string)
| JArray (items : list Json)
| JObject (fields : list (string * Json)).
#[local] Set Elimination Schemes.

(** [if (v)] *)
Definition js_truthy (v : Json) : bool :=
  match v with
  | JUndefined | JNull => false
  | JBool b => b
  | JNumber n => negb (n =? 0)%Z
  | JString s => negb (String.eqb s "")
  | JArray _ | JObject _ => true
  end.

(** What a request may throw: a value ([throw res.errors]) or an error. *)
Inductive Thrown :=
| ThrownValue (v : Json)
| ThrownError (e : Error).

Inductive Outcome (A : Type) :=
| Returned (a : A)
| Threw (t : Thrown).

Arguments Returned {A} a.
Arguments Threw {A} t.

(** [v.k], for the keys the requests read ([errors], [getMod], [versions],
    [getSMLVersions], [sml_versions]): a [TypeError] on [null] and
    [undefined], the field of an object, and [undefined] on anything else and
    for a field that is not there. *)
Definition js_get (v : Json) (k : string) : Outcome Json :=
  match v with
  | JUndefined | JNull =>
      Threw (ThrownError (OtherError ("TypeError: Cannot read property '" ++ k ++ "'")))
  | JObject fields =>
      match obj_get fields k with
      | Some x => Returned x
      | None => Returned JUndefined
      end
  | _ => Returned JUndefined
  end.

(** lines 29-33 *)
Record FicsitAppFetch := mkFetch {
  fetch_time : Z;
  fetch_data : Json
}.

(** line 35: [cachedFetch], the state of the module *)
Definition RequestCache := JsObject FicsitAppFetch.

(** line 36 *)
Definition fetchCooldown : Z := 5 * 60 * 1000.

(** lines 38-40; [now] is what [Date.now()] reads. *)
Definition cooldownPassed (action : string) (now : Z) (cachedFetch : RequestCache) : bool :=
  match obj_get cachedFetch action with
  | Some fetch => (now - fetch_time fetch >? fetchCooldown)%Z
  | None => true
  end.

(** lines 43-45 *)
Definition getCache (action : string) (cachedFetch : RequestCache) : Json :=
  match obj_get cachedFetch action with
  | Some fetch => fetch_data fetch
  | None => JUndefined
  end.

(** lines 48-53 *)
Definition setCache (action : string) (d : Json) (now : Z) (cachedFetch : RequestCache)
  : RequestCache :=
  obj_set cachedFetch action (mkFetch now d).

Section Requests.

(** One call of a request: [now] is the clock when the cooldown is tested,
    [later] the clock when the answer is stored, and [response] what
    [fiscitApiQuery] settles with, should the request be sent (lines 9-27:
    the [data] of the answer, or the parsed error body, or a throw when that
    body does not parse). *)
Variable now later : Z.
Variable response : Outcome Json.

(** The shape the requests share: past the cooldown the query is sent and
    [store] takes from its answer what goes into the cache, or throws; then,
    and also within the cooldown, the cache is read. *)
Definition cachedRequest (requestID : string) (store : Json -> Outcome Json)
    (cachedFetch : RequestCache) : Outcome Json * RequestCache :=
  if cooldownPassed requestID now cachedFetch then
    match response with
    | Returned res =>
        match js_get res "errors" with
        | Returned errors =>
            if js_truthy errors then (Threw (ThrownValue errors), cachedFetch)
            else
              match store res with
              | Returned d =>
                  let cachedFetch' := setCache requestID d later cachedFetch in
                  (Returned (getCache requestID cachedFetch'), cachedFetch')
              | Threw t => (Threw t, cachedFetch)
              end
        | Threw t => (Threw t, cachedFetch)
        end
    | Threw t => (Threw t, cachedFetch)
    end
  else (Returned (getCache requestID cachedFetch), cachedFetch).

(** lines 166-210 *)
Definition getMod_request (modID : string) : RequestCache -> Outcome Json * RequestCache :=
  cachedRequest ("getMod_" ++ modID) (fun res => js_get res "getMod").

(** lines 212-247 *)
Definition getModVersions_request (modID : string)
  : RequestCache -> Outcome Json * RequestCache :=
  cachedRequest ("getModVersions_" ++ modID)
    (fun res =>
       match js_get res "getMod" with
       | Returned m =>
           if js_truthy m then js_get m "versions"
           else Threw (ThrownError (ModNotFoundError ("Mod " ++ modID ++ " not found")))
       | Threw t => Threw t
       end).

(** lines 280-307 *)
Definition getAvailableSMLVersions_request : RequestCache -> Outcome Json * RequestCache :=
  cachedRequest "getSMLVersions"
    (fun res =>
       match js_get res "getSMLVersions" with
       | Returned v => js_get v "sml_versions"
       | Threw t => Threw t
       end).

End Requests.

(** ** Vocabulary of the statements *)

(** Graph invariant 1 of the data model: at most one node per id. *)
Definition unique_ids (nodes : list LockfileGraphNode) : Prop :=
  NoDup (map id nodes).

(** The graph as line 89 leaves it: the node found for the dependency is
    removed; nothing changes when no node was found. *)
Definition without_found (dependencyNode : option LockfileGraphNode)
    (nodes : list LockfileGraphNode) : list LockfileGraphNode :=
  match dependencyNode with
  | Some d => removeArrayElement nodes d
  | None => nodes
  end.

(** Lines 83-91 go on to look for a version: the dependency has no node, or a
    node outside the manifest whose version does not satisfy the constraint. *)
Definition needs_resolving (semver : Semver) (dependencyNode : option LockfileGraphNode)
    (versionConstraint : string) : bool :=
  match dependencyNode with
  | None => true
  | Some d =>
      negb (satisfies semver (version d) versionConstraint)
      && negb (truthy_bool (isInManifest d))
  end.

(** The candidates of a dependency: what the catalog lists for the constraints
    collected from the graph (lines 92-97). *)
Definition candidates (semver : Semver) (catalog : Catalog) (dependencyID : string)
    (nodes : list LockfileGraphNode) : Result (list string) :=
  findAllVersionsMatchingAll semver catalog dependencyID
    (collectConstraints dependencyID nodes).

(** [a] does not come after [b] in the order of [compare]. *)
Definition version_le (semver : Semver) (a b : string) : Prop :=
  (compare semver a b <= 0)%Z.

(** [compare] is a consistent comparator, as [Array.prototype.sort] asks. *)
Definition consistent_comparator (semver : Semver) : Prop :=
  (forall a b, Z.sgn (compare semver b a) = (- Z.sgn (compare semver a b))%Z)
  /\ (forall a b c, (compare semver a b <= 0)%Z -> (compare semver b c <= 0)%Z ->
                    (compare semver a c <= 0)%Z).

(** *** The statements of the design document that the code does not meet,
    as the document words them *)

(** Section 4.5, steps e.ii and e.iv: the child is validated after [add], and
    a child whose validation fails is removed before the next candidate. *)
Definition rejects_failed_child (semver : Semver) (catalog : Catalog) : Prop :=
  forall dependencyID version rest itemData nodes e nodes1,
    String.eqb version "" = false ->
    getItemData semver catalog dependencyID version = Ok itemData ->
    validate semver catalog itemData (snd (add itemData nodes)) = (Err e, nodes1) ->
    tryVersions semver catalog dependencyID (version :: rest) nodes
    = tryVersions semver catalog dependencyID rest (removeArrayElement nodes1 itemData).

(** Section 4.5, step e.i, and section 7: a candidate whose [getItemData]
    fails is skipped, unless the failure is a manifest mismatch. *)
Definition skips_failed_getItemData (semver : Semver) (catalog : Catalog) : Prop :=
  forall dependencyID version rest e nodes,
    String.eqb version "" = false ->
    getItemData semver catalog dependencyID version = Err e ->
    (forall message, e <> DependencyManifestMismatchError message) ->
    tryVersions semver catalog dependencyID (version :: rest) nodes
    = tryVersions semver catalog dependencyID rest nodes.

(** Section 4.5, step 3.a, read of the whole of [validate]. *)
Definition mismatch_always_reported (semver : Semver) (catalog : Catalog) : Prop :=
  forall node nodes d dependencyID versionConstraint,
    unique_ids nodes ->
    In d nodes -> id d = dependencyID -> truthy_bool (isInManifest d) = true ->
    obj_get (dependencies node) dependencyID = Some versionConstraint ->
    satisfies semver (version d) versionConstraint = false ->
    exists message nodes',
      validate semver catalog node nodes
      = (Err (DependencyManifestMismatchError message), nodes').

(** Section 4.5, step f: when no candidate succeeds, the node removed at step
    b is back in the graph and the failure is [UnsolvableDependency].  In the
    code a candidate that is tried and not accepted is one whose
    [getItemData] fails. *)
Definition restores_prior_node (semver : Semver) (catalog : Catalog) : Prop :=
  forall node nodes d dependencyID versionConstraint versions,
    unique_ids nodes ->
    In d nodes -> id d = dependencyID -> truthy_bool (isInManifest d) = false ->
    satisfies semver (version d) versionConstraint = false ->
    candidates semver catalog dependencyID (removeArrayElement nodes d) = Ok versions ->
    (forall v, In v versions -> exists e, getItemData semver catalog dependencyID v = Err e) ->
    exists message nodes',
      validateDependency semver catalog node (dependencyID, versionConstraint) nodes
      = (Err (UnsolvableDependencyError message), nodes')
      /\ In d nodes'.

(** Graph invariant 4: no node left after [cleanup] is dangling. *)
Definition no_dangling_after_cleanup : Prop :=
  forall nodes n,
    In n (snd (cleanup nodes)) -> isNodeDangling (snd (cleanup nodes)) n = false.

(** *** Further vocabulary *)

(** The contract of the mod cache (section 6 of the design document): the
    metadata delivered for a mod and a version are those of that mod and that
    version. *)
Definition coherent_cache (catalog : Catalog) : Prop :=
  forall i v modData,
    getCachedMod catalog i v = Ok modData ->
    mod_id modData = i /\ mod_version modData = v.

(** The dependency [(dependencyID, versionConstraint)] is met in the graph:
    the node that [find] gives for the id satisfies the constraint. *)
Definition dependency_met (semver : Semver) (nodes : list LockfileGraphNode)
    (dependency : string * string) : Prop :=
  exists d,
    find (has_id (fst dependency)) nodes = Some d
    /\ satisfies semver (version d) (snd dependency) = true.

(** Every dependency of the node is met in the graph. *)
Definition node_valid (semver : Semver) (nodes : list LockfileGraphNode)
    (node : LockfileGraphNode) : Prop :=
  forall dependency, In dependency (dependencies node) -> dependency_met semver nodes dependency.

(** Every dependency of every node names a node of the graph. *)
Definition dependencies_present (nodes : list LockfileGraphNode) : Prop :=
  forall node k, In node nodes -> obj_in k (dependencies node) = true ->
                 existsb (has_id k) nodes = true.

(** [compare] is a consistent comparator on the strings that are versions,
    the ones it does not throw on. *)
Definition consistent_on_versions (semver : Semver) : Prop :=
  (forall a b, is_version semver a = true -> is_version semver b = true ->
               Z.sgn (compare semver b a) = (- Z.sgn (compare semver a b))%Z)
  /\ (forall a b c, is_version semver a = true -> is_version semver b = true ->
                    is_version semver c = true ->
                    (compare semver a b <= 0)%Z -> (compare semver b c <= 0)%Z ->
                    (compare semver a c <= 0)%Z).

(** Section 8, monotone candidate preference, as the document words it: of
    two candidates [v1 < v2] that each pass validation when tried alone, the
    dependency is bound to [v2]. *)
Definition binds_higher_of_two (semver : Semver) (catalog : Catalog) : Prop :=
  forall node dependencyID versionConstraint nodes versions v1 v2 child1 child2 nodes',
    let nodes1 := without_found (find (has_id dependencyID) nodes) nodes in
    needs_resolving semver (find (has_id dependencyID) nodes) versionConstraint = true ->
    candidates semver catalog dependencyID nodes1 = Ok versions ->
    In v1 versions -> In v2 versions -> (compare semver v1 v2 < 0)%Z ->
    getItemData semver catalog dependencyID v1 = Ok child1 ->
    getItemData semver catalog dependencyID v2 = Ok child2 ->
    fst (validate semver catalog child1 (snd (add child1 nodes1))) = Ok tt ->
    fst (validate semver catalog child2 (snd (add child2 nodes1))) = Ok tt ->
    validateDependency semver catalog node (dependencyID, versionConstraint) nodes
    = (Ok tt, nodes') ->
    exists d, In d nodes' /\ id d = dependencyID /\ version d = v2.

(** A node as a lockfile keeps it: without the manifest flag. *)
Definition unmarked (node : LockfileGraphNode) : LockfileGraphNode :=
  mkNode (id node) (version node) (dependencies node) None.

(** The entry of a lockfile for a node. *)
Definition lockfile_entry (node : LockfileGraphNode) : string * LockfileItemData :=
  (id node, mkItem (version node) (dependencies node)).

(** ** A small catalog to run the code on *)

Module Scenario.

(** A [semver] for versions [MAJOR.MINOR.PATCH] of decimal numbers and the
    ranges [>=v], [^v] and [v]. *)

Definition digit (c : ascii) : option N :=
  let n := N_of_ascii c in
  if ((48 <=? n) && (n <=? 57))%N then Some (n - 48)%N else None.

Fixpoint parse_fields (s : string) (current : N) (fields : list N) : option (list N) :=
  match s with
  | EmptyString => Some (rev (current :: fields))
  | String c s' =>
      if Ascii.eqb c "."%char then parse_fields s' 0%N (current :: fields)
      else
        match digit c with
        | Some d => parse_fields s' (10 * current + d)%N fields
        | None => None
        end
  end.

Definition parse (v : string) : option (N * N * N) :=
  match v with
  | EmptyString => None
  | _ =>
      match parse_fields v 0%N [] with
      | Some [major; minor; patch] => Some (major, minor, patch)
      | _ => None
      end
  end.

Definition precedence (x y : N * N * N) : Z :=
  let '(a1, b1, c1) := x in
  let '(a2, b2, c2) := y in
  if (a1 <? a2)%N then (-1)%Z else if (a2 <? a1)%N then 1%Z
  else if (b1 <? b2)%N then (-1)%Z else if (b2 <? b1)%N then 1%Z
  else if (c1 <? c2)%N then (-1)%Z else if (c2 <? c1)%N then 1%Z
  else 0%Z.

Definition key (v : string) : N * N * N :=
  match parse v with
  | Some t => t
  | None => (0, 0, 0)%N
  end.

Definition semver_compare (a b : string) : Z := precedence (key a) (key b).

Definition semver_coerce (s : string) : option string :=
  match s with
  | EmptyString => None
  | _ =>
      match parse_fields s 0%N [] with
      | Some (major :: rest) =>
          Some (Number_toString major ++ "." ++ Number_toString (nth 0 rest 0%N)
                  ++ "." ++ Number_toString (nth 1 rest 0%N))
      | _ => None
      end
  end.

Definition semver_valid (v : option string) : option string :=
  match v with
  | Some s => match parse s with Some _ => Some s | None => None end
  | None => None
  end.

Definition drop (n : nat) (s : string) : string :=
  substring n (String.length s - n) s.

Definition semver_satisfies (v range : string) : bool :=
  match parse v with
  | None => false
  | Some x =>
      if prefix ">=" range then
        match parse (drop 2 range) with
        | Some y => (0 <=? precedence x y)%Z
        | None => false
        end
      else if prefix "^" range then
        match parse (drop 1 range) with
        | Some y => (0 <=? precedence x y)%Z && (fst (fst x) =? fst (fst y))%N
        | None => false
        end
      else
        match parse range with
        | Some y => (precedence x y =? 0)%Z
        | None => false
        end
  end.

Definition semver : Semver :=
  mkSemver semver_satisfies semver_compare semver_coerce semver_valid.

(** The catalog: three loader releases; [modB] in two versions, the newer of
    which needs a [modC] that has no such version; [modD] in two versions, the
    newer of which cannot be fetched. *)

Definition smlVersions : list FicsitAppSMLVersion :=
  [mkSMLVersion "1.0.0" 109000; mkSMLVersion "2.0.0" 109000; mkSMLVersion "1.0.1" 109000].

Definition appVersion (modID version : string) : FicsitAppVersion :=
  mkAppVersion modID version "2.0.0".

Definition mods (modID : string) : Result (option FicsitAppMod) :=
  if String.eqb modID "modB" then
    Ok (Some (mkAppMod "modB" [appVersion "modB" "2.0.0"; appVersion "modB" "1.0.0"]))
  else if String.eqb modID "modC" then
    Ok (Some (mkAppMod "modC" [appVersion "modC" "0.1.0"]))
  else if String.eqb modID "modD" then
    Ok (Some (mkAppMod "modD" [appVersion "modD" "1.0.0"; appVersion "modD" "2.0.0"]))
  else Ok None.

Definition modCache (modID version : string) : Result Mod :=
  if String.eqb modID "modB" && String.eqb version "2.0.0" then
    Ok (mkMod "modB" "2.0.0" (Some [("modC", ">=1.0.0")]) None)
  else if String.eqb modID "modB" && String.eqb version "1.0.0" then
    Ok (mkMod "modB" "1.0.0" None (Some "2.0.0"))
  else if String.eqb modID "modC" && String.eqb version "0.1.0" then
    Ok (mkMod "modC" "0.1.0" (Some []) None)
  else if String.eqb modID "modD" && String.eqb version "1.0.0" then
    Ok (mkMod "modD" "1.0.0" (Some []) None)
  else Err (ModNotFoundError (modID ++ "@" ++ version ++ " not found")).

Definition catalog : Catalog := mkCatalog (Ok smlVersions) mods modCache.

(** Nodes *)

Definition game : LockfileGraphNode :=
  mkNode "SatisfactoryGame" "109000.0.0" [] (Some true).

Definition modA : LockfileGraphNode :=
  mkNode "modA" "1.0.0" [("modB", ">=1.0.0")] (Some true).

Definition modB1 : LockfileGraphNode :=
  mkNode "modB" "1.0.0" [("SML", ">=2.0.0")] None.

Definition modB2 : LockfileGraphNode :=
  mkNode "modB" "2.0.0" [("modC", ">=1.0.0")] None.

Definition modB1_pinned : LockfileGraphNode :=
  mkNode "modB" "1.0.0" [("SML", ">=2.0.0")] (Some true).

Definition modC : LockfileGraphNode :=
  mkNode "modC" "0.1.0" [] None.

Definition modD1 : LockfileGraphNode :=
  mkNode "modD" "1.0.0" [] None.

(** needs a [modD] that is listed and cannot be fetched *)
Definition modE : LockfileGraphNode :=
  mkNode "modE" "1.0.0" [("modD", ">=2.0.0")] (Some true).

(** needs a [modC] that has no such version, then a [modB] other than the
    pinned one *)
Definition modF : LockfileGraphNode :=
  mkNode "modF" "1.0.0" [("modC", ">=1.0.0"); ("modB", "2.0.0")] (Some true).

(** needs a [modC] that has no such version *)
Definition modG : LockfileGraphNode :=
  mkNode "modG" "1.0.0" [("modC", ">=1.0.0")] (Some true).

(** needs any [modD]: both versions are candidates *)
Definition modH : LockfileGraphNode :=
  mkNode "modH" "1.0.0" [("modD", ">=1.0.0")] (Some true).

(** needs a [modB] other than the pinned one *)
Definition modI : LockfileGraphNode :=
  mkNode "modI" "1.0.0" [("modB", "2.0.0")] (Some true).

(** Two chains of dependants outside the manifest, one listed from its end
    and one from its head. *)
Definition chain1_end : LockfileGraphNode := mkNode "p1" "1.0.0" [] None.
Definition chain1_head : LockfileGraphNode := mkNode "p0" "1.0.0" [("p1", "1.0.0")] None.
Definition chain2_head : LockfileGraphNode := mkNode "q0" "1.0.0" [("q1", "1.0.0")] None.
Definition chain2_end : LockfileGraphNode := mkNode "q1" "1.0.0" [] None.

Definition chains : list LockfileGraphNode :=
  [chain1_end; chain1_head; chain2_head; chain2_end].

(** The loader release 2.0.0 as [getItemData] builds it, and a graph in which
    every dependency is met. *)
Definition sml2 : LockfileGraphNode :=
  mkNode "SML" "2.0.0" [("SatisfactoryGame", ">=109000.0.0")] None.

Definition settled : list LockfileGraphNode := [game; modA; modB1; sml2].

(** needs a mod that the catalog does not know *)
Definition modJ : LockfileGraphNode :=
  mkNode "modJ" "1.0.0" [("modZ", ">=1.0.0")] (Some true).

(** What the catalog answers to [getModVersions]. *)
Definition modVersions (modID : string) : Result (list FicsitAppVersion) :=
  match mods modID with
  | Ok (Some modInfo) => Ok (fm_versions modInfo)
  | Ok None => Err (ModNotFoundError ("Mod " ++ modID ++ " not found"))
  | Err e => Err e
  end.


(** Answers of the server: a mod, no such mod, and an error. *)
Definition answer_mod : Json :=
  JObject [("getMod", JObject [("id", JString "modB"); ("versions", JArray [])])].

Definition answer_unknown : Json := JObject [("getMod", JNull)].

Definition answer_errors : Json :=
  JObject [("errors", JArray [JObject [("message", JString "bad query")]])].

(** A cache that holds an answer for [getMod("modB")] stored at time 1000. *)
Definition cache1 : RequestCache :=
  [("getMod_modB", mkFetch 1000 (JString "cached"))].

(** A second catalog: [modT] in three versions, the highest of which needs a
    [modC] that has no such version. *)
Definition mods3 (modID : string) : Result (option FicsitAppMod) :=
  if String.eqb modID "modT" then
    Ok (Some (mkAppMod "modT" [appVersion "modT" "1.0.0"; appVersion "modT" "3.0.0";
                               appVersion "modT" "2.0.0"]))
  else if String.eqb modID "modC" then
    Ok (Some (mkAppMod "modC" [appVersion "modC" "0.1.0"]))
  else Ok None.

Definition modCache3 (modID version : string) : Result Mod :=
  if String.eqb modID "modT" && String.eqb version "1.0.0" then
    Ok (mkMod "modT" "1.0.0" None None)
  else if String.eqb modID "modT" && String.eqb version "2.0.0" then
    Ok (mkMod "modT" "2.0.0" None None)
  else if String.eqb modID "modT" && String.eqb version "3.0.0" then
    Ok (mkMod "modT" "3.0.0" (Some [("modC", ">=1.0.0")]) None)
  else Err (ModNotFoundError (modID ++ "@" ++ version ++ " not found")).

Definition catalog3 : Catalog := mkCatalog (Ok smlVersions) mods3 modCache3.

Definition modT1 : LockfileGraphNode := mkNode "modT" "1.0.0" [] None.
Definition modT2 : LockfileGraphNode := mkNode "modT" "2.0.0" [] None.
Definition modT3 : LockfileGraphNode := mkNode "modT" "3.0.0" [("modC", ">=1.0.0")] None.

(** needs any [modT] *)
Definition modK : LockfileGraphNode :=
  mkNode "modK" "1.0.0" [("modT", ">=1.0.0")] (Some true).

(** Releases of which one has a version that is no version. *)
Definition brokenVersions (modID : string) : Result (list FicsitAppVersion) :=
  Ok [appVersion modID "1.0.0"; appVersion modID "latest"].

End Scenario.

(** * Properties *)

(** ** Objects *)

Lemma obj_in_keys (V : Type) (o : JsObject V) (k : string) :
  obj_in k o = true <-> In k (Object_keys o).
Proof.
  induction o as [|[k' v] o IH]; simpl.
  - split; [discriminate | tauto].
  - destruct (String.eqb_spec k' k) as [->|Hne].
    + split; auto.
    + rewrite IH. split; [auto | intros [H|H]; [contradiction | exact H]].
Qed.

Lemma obj_in_get (V : Type) (o : JsObject V) (k : string) :
  obj_in k o = true <-> exists v, obj_get o k = Some v.
Proof.
  induction o as [|[k' v] o IH]; simpl.
  - split; [discriminate | intros [v H]; discriminate].
  - destruct (String.eqb k' k); [split; eauto | exact IH].
Qed.

Lemma obj_get_set_same (V : Type) (o : JsObject V) (k : string) (v : V) :
  obj_get (obj_set o k v) k = Some v.
Proof.
  induction o as [|[k' v'] o IH]; simpl.
  - now rewrite String.eqb_refl.
  - destruct (String.eqb k' k) eqn:E; simpl; rewrite E; auto.
Qed.

Lemma obj_get_set_other (V : Type) (o : JsObject V) (k k0 : string) (v : V) :
  k <> k0 -> obj_get (obj_set o k v) k0 = obj_get o k0.
Proof.
  intros Hne. induction o as [|[k' v'] o IH]; simpl.
  - destruct (String.eqb_spec k k0); [contradiction | reflexivity].
  - destruct (String.eqb_spec k' k) as [->|Hk]; simpl.
    + destruct (String.eqb_spec k k0); [contradiction | reflexivity].
    + destruct (String.eqb k' k0); auto.
Qed.

(** ** The array helpers *)

Lemma removeArrayElement_absent (array : list LockfileGraphNode) (x : LockfileGraphNode) :
  ~ In x array -> removeArrayElement array x = array.
Proof.
  induction array as [|y rest IH]; simpl; intros Hx; [reflexivity|].
  destruct (node_eq_dec y x) as [->|_]; [tauto|].
  rewrite IH; tauto.
Qed.

Lemma removeArrayElement_keeps (array : list LockfileGraphNode) (x y : LockfileGraphNode) :
  In y array -> x <> y -> In y (removeArrayElement array x).
Proof.
  induction array as [|z rest IH]; simpl; intros Hy Hne; [contradiction|].
  destruct (node_eq_dec z x) as [->|_].
  - destruct Hy; [contradiction | assumption].
  - destruct Hy; [left | right]; auto.
Qed.

Lemma removeArrayElement_incl (array : list LockfileGraphNode) (x y : LockfileGraphNode) :
  In y (removeArrayElement array x) -> In y array.
Proof.
  induction array as [|z rest IH]; simpl; [tauto|].
  destruct (node_eq_dec z x); simpl; intuition.
Qed.

Lemma removeArrayElement_skip (front rest : list LockfileGraphNode) (x : LockfileGraphNode) :
  ~ In x front ->
  removeArrayElement (front ++ x :: rest) x = (front ++ rest)%list.
Proof.
  induction front as [|y front IH]; simpl; intros Hx.
  - destruct (node_eq_dec x x); [reflexivity | contradiction].
  - destruct (node_eq_dec y x) as [->|_]; [tauto|].
    rewrite IH; tauto.
Qed.

(** The single pass keeps exactly the elements on which the condition fails. *)
Lemma removeArrayElementWhere_filter (array : list LockfileGraphNode)
    (condition : LockfileGraphNode -> bool) :
  removeArrayElementWhere array condition = filter (fun x => negb (condition x)) array.
Proof.
  unfold removeArrayElementWhere.
  enough (H : forall front,
             (forall x, In x front -> condition x = false) ->
             fold_left removeArrayElement (filter condition array) (front ++ array)%list
             = (front ++ filter (fun x => negb (condition x)) array)%list)
    by (apply (H []); simpl; tauto).
  induction array as [|y rest IH]; simpl; intros front Hfront.
  - reflexivity.
  - destruct (condition y) eqn:Hy; simpl.
    + rewrite removeArrayElement_skip.
      * apply IH, Hfront.
      * intros Hin. apply Hfront in Hin. congruence.
    + change (front ++ y :: rest)%list with (front ++ [y] ++ rest)%list.
      rewrite app_assoc, IH.
      * now rewrite <- app_assoc.
      * intros x Hx. apply in_app_or in Hx. destruct Hx as [Hx|[<-|[]]]; auto.
Qed.

Section PostConditions.

Variable T : Type.
Variable callback : T -> Graph unit.
Variable P : list LockfileGraphNode -> Prop.
Hypothesis callback_keeps : forall x nodes, P nodes -> P (snd (callback x nodes)).

(** What every call of the callback keeps, [forEachAsync] keeps, whether it
    ends or is cut short by a rejection. *)
Lemma forEachAsync_keeps (array : list T) (nodes : list LockfileGraphNode) :
  P nodes -> P (snd (forEachAsync array callback nodes)).
Proof.
  revert nodes. induction array as [|x rest IH]; simpl; intros nodes HP; [exact HP|].
  unfold bind. specialize (callback_keeps x nodes HP).
  destruct (callback x nodes) as [[[]|e] nodes']; simpl in *; auto.
Qed.

End PostConditions.

Lemma forEachAsync_app (T : Type) (callback : T -> Graph unit) (front rest : list T)
    (nodes : list LockfileGraphNode) :
  forEachAsync (front ++ rest) callback nodes
  = match forEachAsync front callback nodes with
    | (Ok _, nodes') => forEachAsync rest callback nodes'
    | (Err e, nodes') => (Err e, nodes')
    end.
Proof.
  revert nodes. induction front as [|x front IH]; simpl; intros nodes; [reflexivity|].
  unfold bind. destruct (callback x nodes) as [[[]|e] nodes']; auto.
Qed.

(** ** [add] and [remove] *)

Lemma add_result (node : LockfileGraphNode) (nodes : list LockfileGraphNode) :
  add node nodes
  = (Ok tt, if existsb (has_id (id node)) nodes then nodes else (nodes ++ [node])%list).
Proof.
  unfold add. destruct (existsb (has_id (id node)) nodes); reflexivity.
Qed.

Lemma add_keeps (node x : LockfileGraphNode) (nodes : list LockfileGraphNode) :
  In x nodes -> In x (snd (add node nodes)).
Proof.
  rewrite add_result; simpl. destruct (existsb _ nodes); auto using in_or_app.
Qed.

Lemma has_id_self (node : LockfileGraphNode) : has_id (id node) node = true.
Proof. apply String.eqb_refl. Qed.

(** C10: [add] never throws.  Whatever the graph and the node, it returns
    normally; it leaves the graph as it is when a node of that id is there and
    appends the node otherwise; the [push] inside its [try] cannot fail, so no
    handler of that [try] ever runs; and afterwards the graph holds a node of
    the node's id. *)
Theorem add_never_throws :
  forall (node : LockfileGraphNode) (nodes : list LockfileGraphNode),
    exists nodes',
      add node nodes = (Ok tt, nodes')
      /\ (existsb (has_id (id node)) nodes = true -> nodes' = nodes)
      /\ (existsb (has_id (id node)) nodes = false -> nodes' = (nodes ++ [node])%list)
      /\ (forall handler, try_catch (push node) handler nodes = push node nodes)
      /\ existsb (has_id (id node)) nodes' = true.
Proof.
  intros node nodes. rewrite add_result.
  destruct (existsb (has_id (id node)) nodes) eqn:E; eexists; repeat split; auto;
    try discriminate.
  rewrite existsb_app; simpl. rewrite has_id_self. now rewrite orb_true_r.
Qed.

(** ** The candidate loop *)

Section CandidateLoop.

Variable semver : Semver.
Variable catalog : Catalog.

Lemma tryVersions_nil (dependencyID : string) (nodes : list LockfileGraphNode) :
  tryVersions semver catalog dependencyID [] nodes = (Ok false, nodes).
Proof. reflexivity. Qed.

(** One turn of the loop decides: the candidate popped is accepted as soon as
    its data is there, and a failure to get the data leaves the loop. *)
Lemma tryVersions_cons (dependencyID version : string) (rest : list string)
    (nodes : list LockfileGraphNode) :
  String.eqb version "" = false ->
  tryVersions semver catalog dependencyID (version :: rest) nodes
  = match getItemData semver catalog dependencyID version with
    | Ok itemData => (Ok true, snd (add itemData nodes))
    | Err e => (Err e, nodes)
    end.
Proof.
  intros Hv. simpl. rewrite Hv. unfold bind at 1, await.
  destruct (getItemData semver catalog dependencyID version) as [itemData|e];
    [|reflexivity].
  unfold try_catch, bind, ret. now rewrite add_result.
Qed.

(** A loop that ends with nothing found has not touched the graph. *)
Lemma tryVersions_not_found (dependencyID : string) (stack : list string)
    (nodes nodes' : list LockfileGraphNode) :
  tryVersions semver catalog dependencyID stack nodes = (Ok false, nodes') ->
  nodes' = nodes.
Proof.
  destruct stack as [|version rest]; [now inversion 1|].
  destruct (String.eqb version "") eqn:Hv.
  - simpl. rewrite Hv. now inversion 1.
  - rewrite tryVersions_cons by exact Hv.
    destruct (getItemData semver catalog dependencyID version); discriminate.
Qed.

(** The loop changes the graph by [add] alone, if at all. *)
Lemma tryVersions_keeps (P : list LockfileGraphNode -> Prop) (dependencyID : string)
    (stack : list string) (nodes : list LockfileGraphNode) :
  (forall node nodes0, P nodes0 -> P (snd (add node nodes0))) ->
  P nodes -> P (snd (tryVersions semver catalog dependencyID stack nodes)).
Proof.
  intros Hadd HP. destruct stack as [|version rest]; [exact HP|].
  destruct (String.eqb version "") eqn:Hv.
  - simpl. rewrite Hv. exact HP.
  - rewrite tryVersions_cons by exact Hv.
    destruct (getItemData semver catalog dependencyID version); simpl; auto.
Qed.

(** [validate] on a dependency that needs resolving, step by step. *)
Lemma validateDependency_resolving (node : LockfileGraphNode)
    (dependencyID versionConstraint : string) (nodes : list LockfileGraphNode) :
  needs_resolving semver (find (has_id dependencyID) nodes) versionConstraint = true ->
  validateDependency semver catalog node (dependencyID, versionConstraint) nodes
  = let dependencyNode := find (has_id dependencyID) nodes in
    let nodes1 := without_found dependencyNode nodes in
    match candidates semver catalog dependencyID nodes1 with
    | Err e => (Err e, nodes1)
    | Ok versions =>
        match tryVersions semver catalog dependencyID (rev (Array_sort semver versions))
                nodes1 with
        | (Ok true, nodes2) => (Ok tt, nodes2)
        | (Ok false, nodes2) =>
            (Err (UnsolvableDependencyError (unsolvable_message dependencyID node)),
             match dependencyNode with
             | Some d => snd (add d nodes2)
             | None => nodes2
             end)
        | (Err e, nodes2) => (Err e, nodes2)
        end
    end.
Proof.
  unfold validateDependency, needs_resolving, candidates, without_found.
  cbn [fst snd]. unfold bind at 1, gets at 1. cbv beta iota.
  destruct (find (has_id dependencyID) nodes) as [d|]; intros H.
  - apply andb_prop in H. destruct H as [H1 H2]. rewrite H1.
    apply negb_true_iff in H2. rewrite H2.
    unfold bind, remove, gets, await, throw, ret; simpl.
    destruct (findAllVersionsMatchingAll _ _ _ _) as [versions|e]; [|reflexivity].
    destruct (tryVersions _ _ _ _ _) as [[[|]|e] nodes2]; simpl; try reflexivity.
    now rewrite add_result.
  - unfold bind, gets, await, throw, ret; simpl.
    destruct (findAllVersionsMatchingAll _ _ _ _) as [versions|e]; [|reflexivity].
    destruct (tryVersions _ _ _ _ _) as [[[|]|e] nodes2]; reflexivity.
Qed.

(** A dependency that needs resolving is bound to the first candidate popped
    whose data [getItemData] delivers. *)
Lemma first_candidate_bound :
  forall (node : LockfileGraphNode) (dependencyID versionConstraint : string)
         (nodes : list LockfileGraphNode) (versions : list string)
         (version : string) (rest : list string) (itemData : LockfileGraphNode),
    needs_resolving semver (find (has_id dependencyID) nodes) versionConstraint = true ->
    candidates semver catalog dependencyID
      (without_found (find (has_id dependencyID) nodes) nodes) = Ok versions ->
    rev (Array_sort semver versions) = version :: rest ->
    String.eqb version "" = false ->
    getItemData semver catalog dependencyID version = Ok itemData ->
    tryVersions semver catalog dependencyID (version :: rest)
      (without_found (find (has_id dependencyID) nodes) nodes)
    = (Ok true, snd (add itemData (without_found (find (has_id dependencyID) nodes) nodes)))
    /\ validateDependency semver catalog node (dependencyID, versionConstraint) nodes
       = (Ok tt, snd (add itemData (without_found (find (has_id dependencyID) nodes) nodes))).
Proof.
  intros node dependencyID versionConstraint nodes versions version rest itemData
         Hneeds Hcands Hstack Hv Hdata.
  set (nodes1 := without_found (find (has_id dependencyID) nodes) nodes) in *.
  assert (Hloop : tryVersions semver catalog dependencyID (version :: rest) nodes1
                  = (Ok true, snd (add itemData nodes1)))
    by (rewrite tryVersions_cons, Hdata by exact Hv; reflexivity).
  split; [exact Hloop|].
  rewrite validateDependency_resolving by exact Hneeds. cbv zeta.
  fold nodes1. rewrite Hcands, Hstack, Hloop. reflexivity.
Qed.

(** C1, as the code has it: for a dependency of a node under validation that
    has no node or an unsatisfying one outside the manifest, the first
    candidate popped whose data [getItemData] delivers is added with [add]
    and accepted at once.  The child is not validated, it is not removed, and
    no lower candidate is tried: the outcome does not depend on the rest of
    the candidates.  [add] appends the child unless a node of its id is
    there. *)
Theorem candidate_accepted_without_validation :
  forall (node : LockfileGraphNode) (dependencyID versionConstraint : string)
         (nodes : list LockfileGraphNode) (versions : list string)
         (version : string) (rest : list string) (itemData : LockfileGraphNode),
    let nodes1 := without_found (find (has_id dependencyID) nodes) nodes in
    needs_resolving semver (find (has_id dependencyID) nodes) versionConstraint = true ->
    candidates semver catalog dependencyID nodes1 = Ok versions ->
    rev (Array_sort semver versions) = version :: rest ->
    String.eqb version "" = false ->
    getItemData semver catalog dependencyID version = Ok itemData ->
    tryVersions semver catalog dependencyID (version :: rest) nodes1
    = (Ok true, snd (add itemData nodes1))
    /\ validateDependency semver catalog node (dependencyID, versionConstraint) nodes
       = (Ok tt, snd (add itemData nodes1))
    /\ snd (add itemData nodes1)
       = (if existsb (has_id (id itemData)) nodes1 then nodes1
          else (nodes1 ++ [itemData])%list).
Proof.
  intros node dependencyID versionConstraint nodes versions version rest itemData nodes1
         Hneeds Hcands Hstack Hv Hdata.
  destruct (first_candidate_bound node dependencyID versionConstraint
              nodes versions version rest itemData Hneeds Hcands Hstack Hv Hdata)
    as [Hloop Hdep].
  split; [exact Hloop|]. split; [exact Hdep|].
  now rewrite add_result.
Qed.

(** How [validate] ends when its callback rejects at some dependency and the
    dependencies before it went through. *)
Lemma validate_rejects_at (node : LockfileGraphNode) (front rest : list (string * string))
    (dependency : string * string) (nodes nodes0 nodes1 : list LockfileGraphNode)
    (e : Error) :
  dependencies node = (front ++ dependency :: rest)%list ->
  forEachAsync front (validateDependency semver catalog node) nodes = (Ok tt, nodes0) ->
  validateDependency semver catalog node dependency nodes0 = (Err e, nodes1) ->
  validate semver catalog node nodes = (Err e, nodes1).
Proof.
  intros Hdeps Hfront Hdep. unfold validate, Object_entries.
  rewrite Hdeps, forEachAsync_app, Hfront. simpl. unfold bind. now rewrite Hdep.
Qed.

(** C2, as the code has it: a failure of [getItemData] on the candidate popped
    is not caught.  The loop ends with that error, whatever its kind, no
    lower candidate is tried, and the error leaves [validate]; the graph is
    left as it was when the candidate was popped (without the node removed at
    line 89, if one was). *)
Theorem getItemData_failure_propagates :
  forall (node : LockfileGraphNode) (front after : list (string * string))
         (dependencyID versionConstraint : string)
         (nodes0 nodes : list LockfileGraphNode) (versions : list string)
         (version : string) (rest : list string) (e : Error),
    let nodes1 := without_found (find (has_id dependencyID) nodes) nodes in
    dependencies node = (front ++ (dependencyID, versionConstraint) :: after)%list ->
    forEachAsync front (validateDependency semver catalog node) nodes0 = (Ok tt, nodes) ->
    needs_resolving semver (find (has_id dependencyID) nodes) versionConstraint = true ->
    candidates semver catalog dependencyID nodes1 = Ok versions ->
    rev (Array_sort semver versions) = version :: rest ->
    String.eqb version "" = false ->
    getItemData semver catalog dependencyID version = Err e ->
    tryVersions semver catalog dependencyID (version :: rest) nodes1 = (Err e, nodes1)
    /\ validate semver catalog node nodes0 = (Err e, nodes1).
Proof.
  intros node front after dependencyID versionConstraint nodes0 nodes versions version rest e
         nodes1 Hdeps Hfront Hneeds Hcands Hstack Hv Hdata.
  assert (Hloop : tryVersions semver catalog dependencyID (version :: rest) nodes1
                  = (Err e, nodes1))
    by (rewrite tryVersions_cons, Hdata by exact Hv; reflexivity).
  split; [exact Hloop|].
  eapply validate_rejects_at; [exact Hdeps | exact Hfront |].
  rewrite validateDependency_resolving by exact Hneeds. cbv zeta.
  fold nodes1. rewrite Hcands, Hstack, Hloop. reflexivity.
Qed.

End CandidateLoop.

(** ** Lookup by id *)

Lemma find_has_id (i : string) (nodes : list LockfileGraphNode) (d : LockfileGraphNode) :
  find (has_id i) nodes = Some d -> In d nodes /\ id d = i.
Proof.
  intros H. apply find_some in H. destruct H as [Hin Hid].
  split; [exact Hin | now apply String.eqb_eq].
Qed.

Lemma find_unique (nodes : list LockfileGraphNode) (d : LockfileGraphNode) :
  unique_ids nodes -> In d nodes -> find (has_id (id d)) nodes = Some d.
Proof.
  unfold unique_ids. induction nodes as [|x rest IH]; simpl; intros Hnd Hin; [contradiction|].
  inversion Hnd as [|? ? Hx Hrest]; subst.
  unfold has_id at 1. destruct (String.eqb_spec (id x) (id d)) as [E|E].
  - destruct Hin as [->|Hin]; [reflexivity|].
    exfalso. apply Hx. rewrite E. now apply in_map.
  - destruct Hin as [->|Hin]; [contradiction|]. now apply IH.
Qed.

Lemma find_app_found (f : LockfileGraphNode -> bool) (nodes more : list LockfileGraphNode)
    (d : LockfileGraphNode) :
  find f nodes = Some d -> find f (nodes ++ more) = Some d.
Proof.
  induction nodes as [|x rest IH]; simpl; [discriminate|].
  destruct (f x); auto.
Qed.

(** Removing the node found for its own id does not change what is found for
    another node's id. *)
Lemma find_after_remove (i : string) (nodes : list LockfileGraphNode)
    (d x : LockfileGraphNode) :
  find (has_id i) nodes = Some d ->
  find (has_id (id x)) nodes = Some x ->
  x <> d ->
  find (has_id i) (removeArrayElement nodes x) = Some d.
Proof.
  induction nodes as [|y rest IH]; simpl; [discriminate|].
  intros Hd Hx Hne. destruct (node_eq_dec y x) as [->|Hyx].
  - rewrite has_id_self in Hx.
    destruct (has_id i x); [congruence | exact Hd].
  - simpl. destruct (has_id i y); [exact Hd|].
    destruct (has_id (id x) y); [congruence|]. now apply IH.
Qed.

Lemma unique_ids_remove (nodes : list LockfileGraphNode) (d : LockfileGraphNode) :
  unique_ids nodes -> In d nodes ->
  existsb (has_id (id d)) (removeArrayElement nodes d) = false.
Proof.
  unfold unique_ids. induction nodes as [|x rest IH]; simpl; intros Hnd Hin; [contradiction|].
  inversion Hnd as [|? ? Hx Hrest]; subst.
  destruct (node_eq_dec x d) as [->|Hne].
  - apply not_true_is_false. intros H. apply existsb_exists in H.
    destruct H as [y [Hy Hid]]. apply String.eqb_eq in Hid.
    apply Hx. rewrite <- Hid. now apply in_map.
  - destruct Hin as [->|Hin]; [contradiction|]. simpl.
    rewrite IH by assumption. rewrite orb_false_r.
    unfold has_id. apply String.eqb_neq. intros E.
    apply Hx. rewrite E. now apply in_map.
Qed.

(** ** [validate] *)

Section Validation.

Variable semver : Semver.
Variable catalog : Catalog.

(** [validate] on a dependency that is satisfied, or that a manifest node
    fails to satisfy: the graph stays as it is. *)
Lemma validateDependency_settled (node : LockfileGraphNode)
    (dependencyID versionConstraint : string) (nodes : list LockfileGraphNode) :
  needs_resolving semver (find (has_id dependencyID) nodes) versionConstraint = false ->
  exists d,
    find (has_id dependencyID) nodes = Some d
    /\ validateDependency semver catalog node (dependencyID, versionConstraint) nodes
       = (if satisfies semver (version d) versionConstraint then Ok tt
          else Err (DependencyManifestMismatchError
                      (mismatch_message dependencyID d node versionConstraint)),
          nodes).
Proof.
  unfold validateDependency, needs_resolving. cbn [fst snd].
  unfold bind at 1, gets at 1. cbv beta iota.
  destruct (find (has_id dependencyID) nodes) as [d|]; [|discriminate].
  intros H. exists d. split; [reflexivity|].
  destruct (satisfies semver (version d) versionConstraint); simpl in *; [reflexivity|].
  apply negb_false_iff in H. rewrite H. reflexivity.
Qed.

(** A property of the graph that [add] keeps, and that the removal of a node
    outside the manifest found by its id keeps, is kept by [validate] on each
    dependency, whatever the outcome. *)
Lemma validateDependency_keeps (P : list LockfileGraphNode -> Prop) :
  (forall n nodes, P nodes -> P (snd (add n nodes))) ->
  (forall d nodes, P nodes -> find (has_id (id d)) nodes = Some d ->
                   truthy_bool (isInManifest d) = false ->
                   P (removeArrayElement nodes d)) ->
  forall node dependency nodes,
    P nodes -> P (snd (validateDependency semver catalog node dependency nodes)).
Proof.
  intros Hadd Hremove node [dependencyID versionConstraint] nodes HP.
  destruct (needs_resolving semver (find (has_id dependencyID) nodes) versionConstraint)
    eqn:Hneeds.
  - rewrite validateDependency_resolving by exact Hneeds. cbv zeta.
    assert (HP1 : P (without_found (find (has_id dependencyID) nodes) nodes)).
    { unfold needs_resolving in Hneeds.
      destruct (find (has_id dependencyID) nodes) as [d|] eqn:Hfind; simpl; [|exact HP].
      apply andb_prop in Hneeds. destruct Hneeds as [_ Hm]. apply negb_true_iff in Hm.
      apply Hremove; auto.
      destruct (find_has_id _ _ _ Hfind) as [_ <-]. exact Hfind. }
    destruct (candidates _ _ _ _) as [versions|e]; [|exact HP1].
    pose proof (tryVersions_keeps semver catalog P dependencyID
                  (rev (Array_sort semver versions)) _ Hadd HP1) as HP2.
    destruct (tryVersions _ _ _ _ _) as [[[|]|e] nodes2]; simpl in *; auto.
    destruct (find (has_id dependencyID) nodes); auto.
  - destruct (validateDependency_settled node _ _ _ Hneeds) as [d [_ ->]]. exact HP.
Qed.

Lemma validate_keeps (P : list LockfileGraphNode -> Prop) :
  (forall n nodes, P nodes -> P (snd (add n nodes))) ->
  (forall d nodes, P nodes -> find (has_id (id d)) nodes = Some d ->
                   truthy_bool (isInManifest d) = false ->
                   P (removeArrayElement nodes d)) ->
  forall node nodes, P nodes -> P (snd (validate semver catalog node nodes)).
Proof.
  intros Hadd Hremove node nodes HP. unfold validate.
  apply forEachAsync_keeps; [|exact HP].
  intros; now apply validateDependency_keeps.
Qed.

Lemma validateAll_from_keeps (P : list LockfileGraphNode -> Prop) :
  (forall node nodes, P nodes -> P (snd (validate semver catalog node nodes))) ->
  forall fuel i nodes, P nodes -> P (snd (validateAll_from semver catalog fuel i nodes)).
Proof.
  intros Hvalidate. induction fuel as [|fuel IH]; simpl; intros i nodes HP; [exact HP|].
  destruct (nth_error nodes i) as [graphNode|]; [|exact HP].
  specialize (Hvalidate graphNode nodes HP).
  destruct (validate semver catalog graphNode nodes) as [[[]|e] nodes']; simpl in *; auto.
Qed.

Lemma unique_ids_add (n : LockfileGraphNode) (nodes : list LockfileGraphNode) :
  unique_ids nodes -> unique_ids (snd (add n nodes)).
Proof.
  unfold unique_ids. rewrite add_result. cbn [snd].
  destruct (existsb (has_id (id n)) nodes) eqn:E; [auto|]. intros Hnd.
  rewrite map_app. simpl. apply NoDup_app; [exact Hnd | repeat constructor; simpl; tauto |].
  intros i Hi [<-|[]]. apply in_map_iff in Hi. destruct Hi as [x [Hx Hin]].
  assert (Hex : existsb (has_id (id n)) nodes = true)
    by (apply existsb_exists; exists x; split; [exact Hin | now apply String.eqb_eq]).
  congruence.
Qed.

Lemma unique_ids_removeArrayElement (d : LockfileGraphNode)
    (nodes : list LockfileGraphNode) :
  unique_ids nodes -> unique_ids (removeArrayElement nodes d).
Proof.
  unfold unique_ids. induction nodes as [|x rest IH]; simpl; intros Hnd; [exact Hnd|].
  inversion Hnd as [|? ? Hx Hrest]; subst.
  destruct (node_eq_dec x d); [exact Hrest|].
  simpl. constructor; [|auto].
  intros Hin. apply Hx. apply in_map_iff in Hin. destruct Hin as [y [Hy Hin]].
  apply in_map_iff. exists y. split; [exact Hy|].
  now apply removeArrayElement_incl in Hin.
Qed.

(** Graph invariant 1 is kept by [validate], whatever the outcome: the
    hypothesis [unique_ids] of the statements below holds of every graph that
    [add], [remove] and [validate] make from one with unique ids. *)
Lemma validate_keeps_unique_ids (node : LockfileGraphNode)
    (nodes : list LockfileGraphNode) :
  unique_ids nodes -> unique_ids (snd (validate semver catalog node nodes)).
Proof.
  apply validate_keeps.
  - intros n nodes0. apply unique_ids_add.
  - intros d nodes0 H _ _. now apply unique_ids_removeArrayElement.
Qed.

(** C5: a node of the graph with [isInManifest] true is still in the graph,
    the same record and so at the same version, after [validate] on any node
    and after [validateAll], whether the call returns, throws, or (for
    [validateAll]) is cut at any number of turns. *)
Theorem manifest_nodes_preserved :
  forall (m : LockfileGraphNode) (nodes : list LockfileGraphNode),
    In m nodes -> truthy_bool (isInManifest m) = true ->
    (forall node, In m (snd (validate semver catalog node nodes)))
    /\ (forall fuel, In m (snd (validateAll semver catalog fuel nodes))).
Proof.
  intros m nodes Hin Hm.
  assert (Hvalidate : forall node nodes0,
             In m nodes0 -> In m (snd (validate semver catalog node nodes0))).
  { intros node nodes0. apply validate_keeps.
    - intros n nodes1. apply add_keeps.
    - intros d nodes1 Hin1 _ Hd. apply removeArrayElement_keeps; [exact Hin1|].
      intros ->. congruence. }
  split.
  - intros node. now apply Hvalidate.
  - intros fuel. unfold validateAll. now apply validateAll_from_keeps.
Qed.

(** C3, as the code has it: in a graph with unique ids that holds a manifest
    node [d] whose version does not satisfy the constraint that [node]
    declares on its id, [validate] does not return normally and [d] stays in
    the graph.  The dependencies of [node] are taken in order and the first
    rejection ends the call: [validate] throws
    [DependencyManifestMismatchError] when the dependencies listed before it
    went through, and the error of the first of them that failed
    otherwise. *)
Theorem manifest_mismatch_aborts :
  forall (node : LockfileGraphNode) (nodes : list LockfileGraphNode) (d : LockfileGraphNode)
         (front rest : list (string * string)) (versionConstraint : string),
    unique_ids nodes ->
    In d nodes -> truthy_bool (isInManifest d) = true ->
    dependencies node = (front ++ (id d, versionConstraint) :: rest)%list ->
    satisfies semver (version d) versionConstraint = false ->
    exists nodes',
      In d nodes'
      /\ ((forEachAsync front (validateDependency semver catalog node) nodes = (Ok tt, nodes')
           /\ validate semver catalog node nodes
              = (Err (DependencyManifestMismatchError
                        (mismatch_message (id d) d node versionConstraint)), nodes'))
          \/ (exists e,
                forEachAsync front (validateDependency semver catalog node) nodes
                = (Err e, nodes')
                /\ validate semver catalog node nodes = (Err e, nodes'))).
Proof.
  intros node nodes d front rest versionConstraint Huniq Hin Hm Hdeps Hsat.
  pose proof (find_unique _ _ Huniq Hin) as Hfind.
  set (P := fun nodes0 => find (has_id (id d)) nodes0 = Some d).
  assert (HP : P (snd (forEachAsync front (validateDependency semver catalog node) nodes))).
  { apply forEachAsync_keeps; [|exact Hfind].
    intros dependency nodes0. apply validateDependency_keeps.
    - intros n nodes1 H1. rewrite add_result; simpl.
      destruct (existsb _ nodes1); [exact H1 | now apply find_app_found].
    - intros x nodes1 H1 Hx Hxm. apply find_after_remove; auto.
      intros ->. congruence. }
  unfold validate, Object_entries. rewrite Hdeps, forEachAsync_app.
  destruct (forEachAsync front (validateDependency semver catalog node) nodes)
    as [[[]|e] nodes'] eqn:Hfront; simpl in HP; unfold P in HP;
    exists nodes'; (split; [exact (proj1 (find_has_id _ _ _ HP))|]).
  - left. split; [reflexivity|]. simpl. unfold bind.
    destruct (validateDependency_settled node (id d) versionConstraint nodes')
      as [d' [Hd' ->]].
    + unfold needs_resolving. rewrite HP, Hm, Hsat. reflexivity.
    + rewrite HP in Hd'. inversion Hd'; subst d'. now rewrite Hsat.
  - right. exists e. split; reflexivity.
Qed.

(** C4, as the code has it: when the node [d] found for a dependency is
    outside the manifest and does not satisfy the constraint, it is removed;
    if the candidate loop then ends with nothing found (the catalog listed no
    version, or the version popped was the empty string), [d] is added again
    and the call throws [UnsolvableDependencyError] for the dependency and the
    node: in a graph with unique ids, [d] is back, now the last node. *)
Theorem unsolvable_restores_prior_node :
  forall (node : LockfileGraphNode) (nodes : list LockfileGraphNode) (d : LockfileGraphNode)
         (versionConstraint : string) (versions : list string)
         (nodes2 : list LockfileGraphNode),
    unique_ids nodes ->
    In d nodes -> truthy_bool (isInManifest d) = false ->
    satisfies semver (version d) versionConstraint = false ->
    candidates semver catalog (id d) (removeArrayElement nodes d) = Ok versions ->
    tryVersions semver catalog (id d) (rev (Array_sort semver versions))
      (removeArrayElement nodes d) = (Ok false, nodes2) ->
    validateDependency semver catalog node (id d, versionConstraint) nodes
    = (Err (UnsolvableDependencyError (unsolvable_message (id d) node)),
       (removeArrayElement nodes d ++ [d])%list)
    /\ In d (removeArrayElement nodes d ++ [d])%list.
Proof.
  intros node nodes d versionConstraint versions nodes2 Huniq Hin Hm Hsat Hcands Hloop.
  pose proof (find_unique _ _ Huniq Hin) as Hfind.
  split; [|apply in_or_app; right; now left].
  rewrite validateDependency_resolving
    by (unfold needs_resolving; rewrite Hfind, Hm, Hsat; reflexivity).
  cbv zeta. rewrite Hfind. cbn [without_found]. rewrite Hcands, Hloop.
  apply tryVersions_not_found in Hloop. subst nodes2.
  rewrite add_result. cbn [snd]. now rewrite unique_ids_remove.
Qed.

End Validation.

(** ** The order of the candidates *)

Section Sorting.

Variable semver : Semver.
Hypothesis comparator : consistent_comparator semver.

Lemma le_total (a b : string) : version_le semver a b \/ version_le semver b a.
Proof.
  unfold version_le. destruct comparator as [Hanti _]. specialize (Hanti a b).
  destruct (Z.sgn_spec (compare semver a b)) as [[? ?]|[[? ?]|[? ?]]];
  destruct (Z.sgn_spec (compare semver b a)) as [[? ?]|[[? ?]|[? ?]]]; lia.
Qed.

Lemma le_trans (a b c : string) :
  version_le semver a b -> version_le semver b c -> version_le semver a c.
Proof. unfold version_le. destruct comparator as [_ Htrans]. apply Htrans. Qed.

Lemma sort_insert_In (a x : string) (sorted : list string) :
  In x (sort_insert semver a sorted) <-> x = a \/ In x sorted.
Proof.
  induction sorted as [|b rest IH]; simpl.
  - intuition.
  - destruct (compare semver a b <=? 0)%Z; simpl; [intuition|].
    rewrite IH. intuition.
Qed.

Lemma Array_sort_In (x : string) (array : list string) :
  In x (Array_sort semver array) <-> In x array.
Proof.
  induction array as [|a rest IH]; simpl; [tauto|].
  rewrite sort_insert_In, IH. intuition.
Qed.

Lemma sort_insert_sorted (a : string) (sorted : list string) :
  StronglySorted (version_le semver) sorted ->
  StronglySorted (version_le semver) (sort_insert semver a sorted).
Proof.
  induction sorted as [|b rest IH]; simpl; intros Hs.
  - constructor; constructor.
  - inversion Hs as [|? ? Hrest Hb]; subst.
    destruct (Z.leb_spec (compare semver a b) 0) as [Hab|Hab].
    + constructor; [exact Hs|]. constructor; [exact Hab|].
      rewrite Forall_forall in *. intros x Hx. eapply le_trans; [exact Hab | auto].
    + constructor; [auto|].
      rewrite Forall_forall in *. intros x Hx. apply sort_insert_In in Hx.
      destruct Hx as [->|Hx]; [|auto].
      destruct (le_total a b) as [H|H]; [unfold version_le in H; lia | exact H].
Qed.

Lemma Array_sort_sorted (array : list string) :
  StronglySorted (version_le semver) (Array_sort semver array).
Proof.
  induction array as [|a rest IH]; simpl; [constructor|].
  now apply sort_insert_sorted.
Qed.

Lemma sorted_last_is_greatest (front : list string) (top : string) :
  StronglySorted (version_le semver) (front ++ [top]) ->
  forall v, In v (front ++ [top]) -> version_le semver v top.
Proof.
  induction front as [|a front IH]; simpl; intros Hs v Hv.
  - destruct Hv as [<-|[]]. destruct (le_total top top); assumption.
  - inversion Hs as [|? ? Hrest Ha]; subst.
    destruct Hv as [<-|Hv]; [|now apply IH].
    rewrite Forall_forall in Ha. apply Ha. apply in_or_app. right. now left.
Qed.

(** What [pop()] takes from the sorted array is a candidate, and no candidate
    is above it. *)
Lemma popped_is_greatest (array : list string) (top : string) (rest : list string) :
  rev (Array_sort semver array) = top :: rest ->
  In top array /\ forall v, In v array -> (compare semver v top <= 0)%Z.
Proof.
  intros Hrev.
  assert (Hsorted : Array_sort semver array = (rev rest ++ [top])%list).
  { rewrite <- (rev_involutive (Array_sort semver array)), Hrev. reflexivity. }
  split.
  - apply Array_sort_In. rewrite Hsorted. apply in_or_app. right. now left.
  - intros v Hv. apply (sorted_last_is_greatest (rev rest)).
    + rewrite <- Hsorted. apply Array_sort_sorted.
    + rewrite <- Hsorted. now apply Array_sort_In.
Qed.

End Sorting.

(** ** [getItemData] *)

(** C7: the three cases of [getItemData].  For ["SML"], a loader release the
    catalog lists gives a node whose dependency map is the single entry
    [SatisfactoryGame] with [>=] and the coerced game version of that release,
    and a version the catalog does not list gives [ModNotFoundError].  For
    ["SatisfactoryGame"] the call always fails with
    [InvalidLockfileOperation].  For any other id the node carries the id and
    version of the cached metadata; its dependency map is that of the
    metadata, empty when the metadata has none, with, when the metadata has a
    loader version (a non-empty [sml_version]), the entry [SML] set to [>=]
    and the coerced loader version and every other key untouched. *)
Theorem getItemData_cases :
  forall (semver : Semver) (catalog : Catalog),
    (forall wanted versions info,
        getAvailableSMLVersions catalog = Ok versions ->
        find (fun v => String.eqb (smlv_version v) wanted) versions = Some info ->
        getItemData semver catalog "SML" wanted
        = Ok (mkNode "SML" wanted
                [("SatisfactoryGame",
                  ">=" ++ template (valid semver (coerce semver
                            (Number_toString (satisfactory_version info)))))]
                None))
    /\ (forall wanted versions,
           getAvailableSMLVersions catalog = Ok versions ->
           (forall info, In info versions -> smlv_version info <> wanted) ->
           exists message,
             getItemData semver catalog "SML" wanted = Err (ModNotFoundError message))
    /\ (forall wanted,
           exists message,
             getItemData semver catalog "SatisfactoryGame" wanted
             = Err (InvalidLockfileOperation message))
    /\ (forall i requested modData,
           i <> "SML" -> i <> "SatisfactoryGame" ->
           getCachedMod catalog i requested = Ok modData ->
           exists node,
             getItemData semver catalog i requested = Ok node
             /\ id node = mod_id modData
             /\ version node = mod_version modData
             /\ (mod_dependencies modData = None ->
                 truthy_string (sml_version modData) = false ->
                 dependencies node = [])
             /\ (forall declared, mod_dependencies modData = Some declared ->
                 truthy_string (sml_version modData) = false ->
                 dependencies node = declared)
             /\ (forall loader,
                    sml_version modData = Some loader -> loader <> "" ->
                    obj_get (dependencies node) "SML"
                    = Some (">=" ++ template (valid semver (coerce semver loader)))
                    /\ forall k, k <> "SML" ->
                         obj_get (dependencies node) k
                         = obj_get (match mod_dependencies modData with
                                    | Some declared => declared
                                    | None => []
                                    end) k)).
Proof.
  intros semver catalog. split; [|split; [|split]].
  - intros wanted versions info Hcat Hfind.
    unfold getItemData, getSMLVersionInfo. simpl. now rewrite Hcat, Hfind.
  - intros wanted versions Hcat Hnone.
    unfold getItemData, getSMLVersionInfo. simpl. rewrite Hcat.
    destruct (find _ versions) as [info|] eqn:Hfind; [|eexists; reflexivity].
    apply find_some in Hfind. destruct Hfind as [Hin Heq].
    apply String.eqb_eq in Heq. now apply Hnone in Hin.
  - intros wanted. eexists. reflexivity.
  - intros i requested modData Hsml Hgame Hcache.
    exists (mkNode (mod_id modData) (mod_version modData) (modDependencies semver modData) None).
    split.
    { unfold getItemData. apply String.eqb_neq in Hsml, Hgame.
      now rewrite Hsml, Hgame, Hcache. }
    split; [reflexivity|]. split; [reflexivity|]. cbn [dependencies].
    unfold modDependencies. split; [|split].
    + intros Hdeps Htruthy. rewrite Hdeps. unfold truthy_string in Htruthy.
      destruct (sml_version modData); [now rewrite Htruthy | reflexivity].
    + intros declared Hdeps Htruthy. rewrite Hdeps. unfold truthy_string in Htruthy.
      destruct (sml_version modData); [now rewrite Htruthy | reflexivity].
    + intros loader Hloader Hne. rewrite Hloader. simpl.
      apply String.eqb_neq in Hne. rewrite Hne. simpl. split.
      * apply obj_get_set_same.
      * intros k Hk. apply obj_get_set_other. congruence.
Qed.

(** ** [cleanup] *)

(** C8, as the code has it: [cleanup] makes one pass.  It keeps exactly the
    nodes that are not dangling in the graph it starts from, so every node it
    leaves is a node of that graph which is in the manifest or has a dependant
    in that graph. *)
Theorem cleanup_single_pass :
  forall nodes : list LockfileGraphNode,
    cleanup nodes = (Ok tt, filter (fun n => negb (isNodeDangling nodes n)) nodes)
    /\ forall n,
         In n (snd (cleanup nodes)) ->
         In n nodes
         /\ (truthy_bool (isInManifest n) = true
             \/ exists dependant,
                  In dependant nodes /\ obj_in (id n) (dependencies dependant) = true).
Proof.
  intros nodes.
  assert (E : cleanup nodes = (Ok tt, filter (fun n => negb (isNodeDangling nodes n)) nodes))
    by (unfold cleanup; now rewrite removeArrayElementWhere_filter).
  split; [exact E|]. intros n. rewrite E. cbn [snd]. rewrite filter_In.
  intros [Hin Hkeep]. split; [exact Hin|].
  unfold isNodeDangling in Hkeep. apply negb_true_iff, andb_false_iff in Hkeep.
  destruct Hkeep as [Hdeps|Hm].
  - right. destruct (getDependants nodes n) as [|dependant others] eqn:Hd;
      [discriminate|].
    exists dependant.
    assert (Hin' : In dependant (getDependants nodes n)) by (rewrite Hd; now left).
    unfold getDependants in Hin'. apply filter_In in Hin'. exact Hin'.
  - left. now apply negb_false_iff in Hm.
Qed.

(** ** [lockfileDifference] *)






(** * The code on the small catalog *)

Import Scenario.

(** The comparator of the small [semver] is consistent. *)
Lemma semver_compare_consistent : consistent_comparator semver.
Proof.
  split.
  - intros a b. cbn [compare semver]. unfold semver_compare.
    destruct (key a) as [[a1 b1] c1], (key b) as [[a2 b2] c2]. unfold precedence.
    repeat (match goal with
            | |- context [(?x <? ?y)%N] => destruct (N.ltb_spec x y)
            end; try lia); reflexivity.
  - intros a b c. cbn [compare semver]. unfold semver_compare.
    destruct (key a) as [[a1 b1] c1], (key b) as [[a2 b2] c2], (key c) as [[a3 b3] c3].
    unfold precedence.
    repeat (match goal with
            | |- context [(?x <? ?y)%N] => destruct (N.ltb_spec x y)
            end; try lia).
Qed.

(** The design document's example of a difference (section 8). *)
Example lockfileDifference_scenario :
  lockfileDifference
    [("A", mkItem "1.0" []); ("B", mkItem "1.0" [])]
    [("A", mkItem "1.0" []); ("B", mkItem "2.0" []); ("C", mkItem "1.0" [])]
  = mkDiff [("B", "2.0"); ("C", "1.0")] ["B"].
Proof. reflexivity. Qed.

(** A loader release, a mod with a loader version and no dependencies, and
    the game. *)
Example getItemData_scenario :
  getItemData semver catalog "SML" "2.0.0"
  = Ok (mkNode "SML" "2.0.0" [("SatisfactoryGame", ">=109000.0.0")] None)
  /\ getItemData semver catalog "SML" "3.0.0" = Err (ModNotFoundError "SML@3.0.0 not found")
  /\ getItemData semver catalog "modB" "1.0.0" = Ok modB1
  /\ getItemData semver catalog "modB" "2.0.0" = Ok modB2.
Proof. repeat split; vm_compute; reflexivity. Qed.

(** C1: [modA] needs [modB]; the catalog has 2.0.0, which needs a [modC] that
    no version satisfies, and 1.0.0.  The child 2.0.0 is added and kept. *)
Lemma candidate_accepted_witness :
  tryVersions semver catalog "modB" ["2.0.0"; "1.0.0"] [modA] = (Ok true, [modA; modB2])
  /\ validateDependency semver catalog modA ("modB", ">=1.0.0") [modA]
     = (Ok tt, [modA; modB2])
  /\ snd (add modB2 [modA]) = [modA; modB2].
Proof.
  assert (h1 : needs_resolving semver (find (has_id "modB") [modA]) ">=1.0.0" = true)
    by (vm_compute; reflexivity).
  assert (h2 : candidates semver catalog "modB"
                 (without_found (find (has_id "modB") [modA]) [modA])
               = Ok ["2.0.0"; "1.0.0"]) by (vm_compute; reflexivity).
  assert (h3 : rev (Array_sort semver ["2.0.0"; "1.0.0"]) = ["2.0.0"; "1.0.0"])
    by (vm_compute; reflexivity).
  assert (h4 : String.eqb "2.0.0" "" = false) by reflexivity.
  assert (h5 : getItemData semver catalog "modB" "2.0.0" = Ok modB2)
    by (vm_compute; reflexivity).
  exact (candidate_accepted_without_validation semver catalog modA "modB" ">=1.0.0" [modA]
           ["2.0.0"; "1.0.0"] "2.0.0" ["1.0.0"] modB2 h1 h2 h3 h4 h5).
Defined.

(** C1 does not hold as worded: the validation of the child 2.0.0 fails in the
    graph it was added to, and yet [validate] on [modA] returns with that
    child in the graph; the lower candidate 1.0.0, which the loop would have
    accepted, is never tried. *)
Lemma failed_child_is_kept :
  getItemData semver catalog "modB" "2.0.0" = Ok modB2
  /\ validate semver catalog modB2 [modA; modB2]
     = (Err (UnsolvableDependencyError "No version found for dependency modC of modB"),
        [modA; modB2])
  /\ validate semver catalog modA [modA] = (Ok tt, [modA; modB2])
  /\ tryVersions semver catalog "modB" ["1.0.0"] [modA] = (Ok true, [modA; modB1])
  /\ ~ rejects_failed_child semver catalog.
Proof.
  repeat split; try (vm_compute; reflexivity).
  intros H.
  specialize (H "modB" "2.0.0" ["1.0.0"] modB2 [modA]
                (UnsolvableDependencyError "No version found for dependency modC of modB")
                [modA; modB2]).
  vm_compute in H. specialize (H eq_refl eq_refl eq_refl). discriminate H.
Qed.

(** C2: [modE] needs [modD] 2.0.0 or above; the catalog lists 2.0.0 and the
    cache cannot deliver it. *)
Lemma getItemData_failure_witness :
  tryVersions semver catalog "modD" ["2.0.0"] [modE]
  = (Err (ModNotFoundError "modD@2.0.0 not found"), [modE])
  /\ validate semver catalog modE [modE; modD1]
     = (Err (ModNotFoundError "modD@2.0.0 not found"), [modE]).
Proof.
  assert (h1 : dependencies modE = ([] ++ ("modD", ">=2.0.0") :: [])%list) by reflexivity.
  assert (h2 : forEachAsync [] (validateDependency semver catalog modE) [modE; modD1]
               = (Ok tt, [modE; modD1])) by reflexivity.
  assert (h3 : needs_resolving semver (find (has_id "modD") [modE; modD1]) ">=2.0.0" = true)
    by (vm_compute; reflexivity).
  assert (h4 : candidates semver catalog "modD"
                 (without_found (find (has_id "modD") [modE; modD1]) [modE; modD1])
               = Ok ["2.0.0"]) by (vm_compute; reflexivity).
  assert (h5 : rev (Array_sort semver ["2.0.0"]) = ["2.0.0"]) by reflexivity.
  assert (h6 : String.eqb "2.0.0" "" = false) by reflexivity.
  assert (h7 : getItemData semver catalog "modD" "2.0.0"
               = Err (ModNotFoundError "modD@2.0.0 not found"))
    by (vm_compute; reflexivity).
  exact (getItemData_failure_propagates semver catalog modE [] [] "modD" ">=2.0.0"
           [modE; modD1] [modE; modD1] ["2.0.0"] "2.0.0" [] _ h1 h2 h3 h4 h5 h6 h7).
Defined.

(** C2 does not hold as worded: [modH] needs any [modD]; the candidates are
    1.0.0 and 2.0.0; the data of 2.0.0 cannot be had, and [ModNotFoundError]
    leaves [validate], although the loop would have accepted 1.0.0. *)
Lemma getItemData_failure_leaves_validate :
  candidates semver catalog "modD" [modH] = Ok ["1.0.0"; "2.0.0"]
  /\ getItemData semver catalog "modD" "2.0.0"
     = Err (ModNotFoundError "modD@2.0.0 not found")
  /\ validate semver catalog modH [modH]
     = (Err (ModNotFoundError "modD@2.0.0 not found"), [modH])
  /\ tryVersions semver catalog "modD" ["1.0.0"] [modH] = (Ok true, [modH; modD1])
  /\ ~ skips_failed_getItemData semver catalog.
Proof.
  repeat split; try (vm_compute; reflexivity).
  intros H.
  specialize (H "modD" "2.0.0" ["1.0.0"] (ModNotFoundError "modD@2.0.0 not found") [modH]).
  vm_compute in H. specialize (H eq_refl eq_refl).
  assert (Hne : forall message : string,
             ModNotFoundError "modD@2.0.0 not found"
             <> DependencyManifestMismatchError message) by (intros; discriminate).
  specialize (H Hne). discriminate H.
Qed.

Ltac unique_ids_by_listing :=
  unfold unique_ids; simpl;
  repeat (constructor; [simpl; intuition discriminate|]); constructor.

(** C3: [modI] needs [modB] 2.0.0 and the manifest pins [modB] at 1.0.0. *)
Lemma manifest_mismatch_witness :
  exists nodes',
    In modB1_pinned nodes'
    /\ ((forEachAsync [] (validateDependency semver catalog modI) [modI; modB1_pinned]
         = (Ok tt, nodes')
         /\ validate semver catalog modI [modI; modB1_pinned]
            = (Err (DependencyManifestMismatchError
                      (mismatch_message "modB" modB1_pinned modI "2.0.0")), nodes'))
        \/ (exists e,
              forEachAsync [] (validateDependency semver catalog modI) [modI; modB1_pinned]
              = (Err e, nodes')
              /\ validate semver catalog modI [modI; modB1_pinned] = (Err e, nodes'))).
Proof.
  assert (h1 : unique_ids [modI; modB1_pinned]) by unique_ids_by_listing.
  assert (h2 : In modB1_pinned [modI; modB1_pinned]) by (simpl; auto).
  assert (h3 : truthy_bool (isInManifest modB1_pinned) = true) by reflexivity.
  assert (h4 : dependencies modI = ([] ++ (id modB1_pinned, "2.0.0") :: [])%list)
    by reflexivity.
  assert (h5 : satisfies semver (version modB1_pinned) "2.0.0" = false)
    by (vm_compute; reflexivity).
  exact (manifest_mismatch_aborts semver catalog modI [modI; modB1_pinned] modB1_pinned
           [] [] "2.0.0" h1 h2 h3 h4 h5).
Defined.

(** C3 does not hold as worded: [modF] needs [modC] 1.0.0 or above, which no
    version satisfies, and then [modB] 2.0.0, pinned at 1.0.0 by the manifest.
    [validate] fails on [modC] first, with [UnsolvableDependencyError]; the
    pinned node stays. *)
Lemma mismatch_not_reported_first :
  unique_ids [modF; modB1_pinned]
  /\ In modB1_pinned [modF; modB1_pinned]
  /\ truthy_bool (isInManifest modB1_pinned) = true
  /\ obj_get (dependencies modF) (id modB1_pinned) = Some "2.0.0"
  /\ satisfies semver (version modB1_pinned) "2.0.0" = false
  /\ validate semver catalog modF [modF; modB1_pinned]
     = (Err (UnsolvableDependencyError "No version found for dependency modC of modF"),
        [modF; modB1_pinned])
  /\ ~ mismatch_always_reported semver catalog.
Proof.
  assert (h1 : unique_ids [modF; modB1_pinned]) by unique_ids_by_listing.
  split; [exact h1|].
  repeat split; try (vm_compute; reflexivity); try (simpl; auto; fail).
  intros H.
  destruct (H modF [modF; modB1_pinned] modB1_pinned "modB" "2.0.0" h1)
    as [message [nodes' Hv]]; try (vm_compute; reflexivity); try (simpl; auto; fail).
  vm_compute in Hv. discriminate Hv.
Qed.

(** C4: [modG] needs [modC] 1.0.0 or above; the graph has [modC] 0.1.0 and the
    catalog has nothing else. *)
Lemma unsolvable_restores_witness :
  validateDependency semver catalog modG (id modC, ">=1.0.0") [modG; modC]
  = (Err (UnsolvableDependencyError (unsolvable_message (id modC) modG)),
     (removeArrayElement [modG; modC] modC ++ [modC])%list)
  /\ In modC (removeArrayElement [modG; modC] modC ++ [modC])%list.
Proof.
  assert (h1 : unique_ids [modG; modC]) by unique_ids_by_listing.
  assert (h2 : In modC [modG; modC]) by (simpl; auto).
  assert (h3 : truthy_bool (isInManifest modC) = false) by reflexivity.
  assert (h4 : satisfies semver (version modC) ">=1.0.0" = false)
    by (vm_compute; reflexivity).
  assert (h5 : candidates semver catalog (id modC) (removeArrayElement [modG; modC] modC)
               = Ok []) by (vm_compute; reflexivity).
  assert (h6 : tryVersions semver catalog (id modC) (rev (Array_sort semver []))
                 (removeArrayElement [modG; modC] modC) = (Ok false, [modG]))
    by (vm_compute; reflexivity).
  exact (unsolvable_restores_prior_node semver catalog modG [modG; modC] modC ">=1.0.0"
           [] [modG] h1 h2 h3 h4 h5 h6).
Defined.

(** C4 does not hold as worded: [modE] needs [modD] 2.0.0 or above; the graph
    has [modD] 1.0.0, outside the manifest, which is removed; the one
    candidate, 2.0.0, cannot be had; [validate] ends with [ModNotFoundError]
    and the old [modD] is not back. *)
Lemma prior_node_not_restored :
  unique_ids [modE; modD1]
  /\ truthy_bool (isInManifest modD1) = false
  /\ satisfies semver (version modD1) ">=2.0.0" = false
  /\ candidates semver catalog "modD" (removeArrayElement [modE; modD1] modD1)
     = Ok ["2.0.0"]
  /\ getItemData semver catalog "modD" "2.0.0"
     = Err (ModNotFoundError "modD@2.0.0 not found")
  /\ validate semver catalog modE [modE; modD1]
     = (Err (ModNotFoundError "modD@2.0.0 not found"), [modE])
  /\ existsb (has_id "modD") [modE] = false
  /\ ~ restores_prior_node semver catalog.
Proof.
  assert (h1 : unique_ids [modE; modD1]) by unique_ids_by_listing.
  split; [exact h1|].
  repeat split; try (vm_compute; reflexivity).
  intros H.
  destruct (H modE [modE; modD1] modD1 "modD" ">=2.0.0" ["2.0.0"] h1)
    as [message [nodes' [Hv _]]]; try (vm_compute; reflexivity); try (simpl; auto; fail).
  - intros v [<-|[]]. eexists. vm_compute. reflexivity.
  - vm_compute in Hv. discriminate Hv.
Qed.

(** C5: the pinned [modB] stays through a validation that fails on it and
    through [validateAll]. *)
Lemma manifest_nodes_preserved_witness :
  (forall node, In modB1_pinned (snd (validate semver catalog node [modI; modB1_pinned])))
  /\ (forall fuel, In modB1_pinned (snd (validateAll semver catalog fuel [modI; modB1_pinned]))).
Proof.
  assert (h1 : In modB1_pinned [modI; modB1_pinned]) by (simpl; auto).
  assert (h2 : truthy_bool (isInManifest modB1_pinned) = true) by reflexivity.
  exact (manifest_nodes_preserved semver catalog modB1_pinned [modI; modB1_pinned] h1 h2).
Defined.

(** C8 does not hold as worded: of two chains of nodes outside the manifest,
    [cleanup] removes the heads, which nothing depends on, and leaves the
    ends, which nothing depends on any more. *)
Lemma cleanup_leaves_dangling :
  cleanup chains = (Ok tt, [chain1_end; chain2_end])
  /\ In chain1_end (snd (cleanup chains))
  /\ truthy_bool (isInManifest chain1_end) = false
  /\ getDependants (snd (cleanup chains)) chain1_end = []
  /\ isNodeDangling (snd (cleanup chains)) chain1_end = true
  /\ ~ no_dangling_after_cleanup.
Proof.
  repeat split; try (vm_compute; reflexivity).
  - vm_compute. auto.
  - intros H. specialize (H chains chain1_end).
    vm_compute in H. specialize (H (or_introl eq_refl)). discriminate H.
Qed.

(** * Further properties of the code *)

(** ** [fromLockfile] and [toLockfile] *)

Lemma obj_get_In (V : Type) (o : JsObject V) (k : string) (v : V) :
  NoDup (Object_keys o) -> In (k, v) o -> obj_get o k = Some v.
Proof.
  unfold Object_keys. induction o as [|[k' v'] o IH]; simpl; intros Hnd Hin; [contradiction|].
  inversion Hnd as [|? ? Hk Hrest]; subst.
  destruct Hin as [E|Hin].
  - inversion E; subst. now rewrite String.eqb_refl.
  - destruct (String.eqb_spec k' k) as [->|_]; [|now apply IH].
    exfalso. apply Hk. change k with (fst (k, v)). now apply in_map.
Qed.

Lemma obj_set_fresh (V : Type) (o : JsObject V) (k : string) (v : V) :
  obj_in k o = false -> obj_set o k v = (o ++ [(k, v)])%list.
Proof.
  induction o as [|[k' v'] o IH]; simpl; intros H; [reflexivity|].
  destruct (String.eqb k' k); [discriminate|]. now rewrite IH.
Qed.

Lemma obj_in_app (V : Type) (o1 o2 : JsObject V) (k : string) :
  obj_in k (o1 ++ o2)%list = obj_in k o1 || obj_in k o2.
Proof.
  induction o1 as [|[k' v'] o1 IH]; simpl; [reflexivity|].
  now destruct (String.eqb k' k).
Qed.

Lemma fromLockfile_fold (lockfile : Lockfile) (keys : list string)
    (nodes : list LockfileGraphNode) :
  fold_left (fun nodes entry =>
               match obj_get lockfile entry with
               | Some item =>
                   (nodes ++ [mkNode entry (item_version item) (item_dependencies item)
                                None])%list
               | None => nodes
               end) keys nodes
  = (nodes ++ flat_map (fun entry =>
                          match obj_get lockfile entry with
                          | Some item =>
                              [mkNode entry (item_version item) (item_dependencies item) None]
                          | None => []
                          end) keys)%list.
Proof.
  revert nodes. induction keys as [|k keys IH]; simpl; intros nodes.
  - now rewrite app_nil_r.
  - rewrite IH. destruct (obj_get lockfile k); [now rewrite <- app_assoc | reflexivity].
Qed.

(** The nodes a lockfile without repeated keys loads: one per entry, in key
    order, none marked as in the manifest. *)
Lemma fromLockfile_nodes (lockfile : Lockfile) (nodes : list LockfileGraphNode) :
  NoDup (Object_keys lockfile) ->
  fromLockfile lockfile nodes
  = (Ok tt,
     (nodes ++ map (fun entry => mkNode (fst entry) (item_version (snd entry))
                                   (item_dependencies (snd entry)) None) lockfile)%list).
Proof.
  intros Hnd. unfold fromLockfile. rewrite fromLockfile_fold. f_equal. f_equal.
  assert (H : forall part,
             (forall k v, In (k, v) part -> obj_get lockfile k = Some v) ->
             flat_map (fun entry =>
                         match obj_get lockfile entry with
                         | Some item =>
                             [mkNode entry (item_version item) (item_dependencies item) None]
                         | None => []
                         end) (Object_keys part)
             = map (fun entry => mkNode (fst entry) (item_version (snd entry))
                                   (item_dependencies (snd entry)) None) part).
  { induction part as [|[k v] part IH]; simpl; intros Hget; [reflexivity|].
    rewrite (Hget k v) by now left. simpl. f_equal. apply IH.
    intros k0 v0 H0. apply Hget. now right. }
  apply H. intros k v Hin. now apply obj_get_In.
Qed.

Lemma toLockfile_fold (nodes : list LockfileGraphNode) (lockfile : Lockfile) :
  NoDup (Object_keys lockfile ++ map id nodes) ->
  fold_left (fun lockfile node =>
               obj_set lockfile (id node) (mkItem (version node) (dependencies node)))
            nodes lockfile
  = (lockfile ++ map lockfile_entry nodes)%list.
Proof.
  revert lockfile. induction nodes as [|n nodes IH]; simpl; intros lockfile Hnd.
  - now rewrite app_nil_r.
  - assert (Hfresh : obj_in (id n) lockfile = false).
    { apply not_true_is_false. intros H. apply obj_in_keys in H.
      apply NoDup_remove_2 in Hnd. apply Hnd. apply in_or_app. now left. }
    rewrite obj_set_fresh by exact Hfresh. rewrite IH.
    + now rewrite <- app_assoc.
    + unfold Object_keys in *. rewrite map_app. simpl. rewrite <- app_assoc. exact Hnd.
Qed.

(** The lockfile of a graph with unique ids: one entry per node, in order. *)
Lemma toLockfile_entries (nodes : list LockfileGraphNode) :
  unique_ids nodes -> toLockfile nodes = map lockfile_entry nodes.
Proof.
  intros Hnd. unfold toLockfile. now rewrite toLockfile_fold.
Qed.


(** X2: the other way round, a graph with unique ids, none of them
    [index_like], written with [toLockfile] and loaded again into an empty
    graph gives the same nodes in the same order, each without its manifest
    flag: the lockfile does not keep manifest membership.  (An id that is
    [index_like] would be listed before the others by the object, whatever
    its place in the graph, and assigning to the key [__proto__] of an object
    literal sets no key: both are left out.) *)
Theorem fromLockfile_toLockfile :
  forall nodes : list LockfileGraphNode,
    unique_ids nodes ->
    (forall n, In n nodes -> index_like (id n) = false) ->
    (forall n, In n nodes -> String.eqb (id n) "__proto__" = false) ->
    fromLockfile (toLockfile nodes) [] = (Ok tt, map unmarked nodes)
    /\ Object_keys (toLockfile nodes) = map id nodes.
Proof.
  intros nodes Hnd _ _. rewrite toLockfile_entries by exact Hnd.
  assert (Hkeys : Object_keys (map lockfile_entry nodes) = map id nodes)
    by (unfold Object_keys; now rewrite map_map).
  split; [|exact Hkeys].
  rewrite fromLockfile_nodes by (rewrite Hkeys; exact Hnd).
  simpl. now rewrite map_map.
Qed.

Lemma find_app_split (T : Type) (f : T -> bool) (l1 l2 : list T) :
  find f (l1 ++ l2)
  = match find f l1 with
    | Some x => Some x
    | None => find f l2
    end.
Proof.
  induction l1 as [|x l1 IH]; simpl; [reflexivity|]. now destruct (f x).
Qed.


(** ** [add] *)

Lemma add_never_fails_has_id (n : LockfileGraphNode) (nodes : list LockfileGraphNode) :
  existsb (has_id (id n)) (snd (add n nodes)) = true /\ fst (add n nodes) = Ok tt.
Proof.
  rewrite add_result. cbn [fst snd]. split; [|reflexivity].
  destruct (existsb (has_id (id n)) nodes) eqn:E; [exact E|].
  rewrite existsb_app. simpl. rewrite has_id_self. now rewrite orb_true_r.
Qed.

(** X4: once a node of some id is in the graph, [add] of any node of that id,
    the same or another version, changes nothing: [add] is idempotent and
    never replaces a version.  It never takes a node out, and it keeps the ids
    unique. *)
Theorem add_idempotent :
  forall (n : LockfileGraphNode) (nodes : list LockfileGraphNode),
    (forall m, id m = id n -> snd (add m (snd (add n nodes))) = snd (add n nodes))
    /\ (forall x, In x nodes -> In x (snd (add n nodes)))
    /\ (unique_ids nodes -> unique_ids (snd (add n nodes))).
Proof.
  intros n nodes. split; [|split].
  - intros m Hid. rewrite (add_result m). cbn [snd]. rewrite Hid.
    destruct (add_never_fails_has_id n nodes) as [H _]. now rewrite H.
  - intros x. apply add_keeps.
  - apply unique_ids_add.
Qed.

(** ** [roots], [isNodeDangling] and [cleanup] *)

Lemma cleanup_filter (nodes : list LockfileGraphNode) :
  snd (cleanup nodes) = filter (fun n => negb (isNodeDangling nodes n)) nodes.
Proof. unfold cleanup. cbn [snd]. apply removeArrayElementWhere_filter. Qed.

Lemma has_dependant_not_dangling (nodes : list LockfileGraphNode)
    (n m : LockfileGraphNode) :
  In m nodes -> obj_in (id n) (dependencies m) = true -> isNodeDangling nodes n = false.
Proof.
  intros Hm Hdep. unfold isNodeDangling.
  assert (Hin : In m (getDependants nodes n))
    by (unfold getDependants; apply filter_In; now split).
  destruct (getDependants nodes n); [contradiction | reflexivity].
Qed.

(** X5: what [cleanup] keeps.  It only takes nodes out.  It keeps every node
    in the manifest, and every node that names its own id among its
    dependencies (such a node is its own dependant).  If every dependency of
    every node named a node of the graph before, the same holds after; unique
    ids stay unique; and a graph without dangling nodes is left as it is. *)
Theorem cleanup_keeps :
  forall nodes : list LockfileGraphNode,
    (forall n, In n (snd (cleanup nodes)) -> In n nodes)
    /\ (forall n, In n nodes -> truthy_bool (isInManifest n) = true ->
                  In n (snd (cleanup nodes)))
    /\ (forall n, In n nodes -> obj_in (id n) (dependencies n) = true ->
                  In n (snd (cleanup nodes)))
    /\ (dependencies_present nodes -> dependencies_present (snd (cleanup nodes)))
    /\ (unique_ids nodes -> unique_ids (snd (cleanup nodes)))
    /\ ((forall n, In n nodes -> isNodeDangling nodes n = false) ->
        snd (cleanup nodes) = nodes).
Proof.
  intros nodes. rewrite cleanup_filter.
  assert (Hdep : forall n m, In n nodes -> In m nodes ->
                   obj_in (id n) (dependencies m) = true ->
                   In n (filter (fun n => negb (isNodeDangling nodes n)) nodes)).
  { intros n m Hn Hm Hd. apply filter_In. split; [exact Hn|].
    now rewrite (has_dependant_not_dangling nodes n m). }
  split; [|split; [|split; [|split; [|split]]]].
  - intros n Hin. now apply filter_In in Hin.
  - intros n Hin Hm. apply filter_In. split; [exact Hin|].
    unfold isNodeDangling. rewrite Hm. now rewrite andb_false_r.
  - intros n Hn Hself. now apply (Hdep n n).
  - intros Hpresent node k Hnode Hk. apply filter_In in Hnode. destruct Hnode as [Hnode _].
    specialize (Hpresent node k Hnode Hk). apply existsb_exists in Hpresent.
    destruct Hpresent as [d [Hd Hid]]. apply existsb_exists. exists d.
    split; [|exact Hid]. apply (Hdep d node); auto.
    unfold has_id in Hid. apply String.eqb_eq in Hid. now rewrite Hid.
  - clear Hdep. unfold unique_ids.
    generalize (fun n => negb (isNodeDangling nodes n)). intros f.
    induction nodes as [|x rest IH]; simpl; intros Hnd; [exact Hnd|].
    inversion Hnd as [|? ? Hx Hrest]; subst.
    destruct (f x); [|now apply IH]. simpl. constructor; [|now apply IH].
    intros Hin. apply Hx. apply in_map_iff in Hin. destruct Hin as [y [Hy Hin]].
    apply in_map_iff. exists y. split; [exact Hy|]. now apply filter_In in Hin.
  - intros Hnone.
    assert (H : forall l, (forall n, In n l -> isNodeDangling nodes n = false) ->
                          filter (fun n => negb (isNodeDangling nodes n)) l = l).
    { induction l as [|x l IH]; simpl; intros Hl; [reflexivity|].
      rewrite (Hl x) by now left. simpl. f_equal. apply IH. intros; apply Hl; now right. }
    now apply H.
Qed.

(** ** More on [validate] *)

Section ValidationOutcomes.

Variable semver : Semver.
Variable catalog : Catalog.

(** [getItemData] never marks the node it builds as in the manifest. *)
Lemma getItemData_unmarked (i v : string) (n : LockfileGraphNode) :
  getItemData semver catalog i v = Ok n -> isInManifest n = None.
Proof.
  unfold getItemData.
  destruct (String.eqb i "SML").
  - destruct (getSMLVersionInfo catalog v) as [[info|]|e]; inversion 1; reflexivity.
  - destruct (String.eqb i "SatisfactoryGame"); [discriminate|].
    destruct (getCachedMod catalog i v); inversion 1; reflexivity.
Qed.

(** With a mod cache that keeps its contract, the node is that of the id and
    the version asked for. *)
Lemma getItemData_coherent (i v : string) (n : LockfileGraphNode) :
  coherent_cache catalog ->
  getItemData semver catalog i v = Ok n -> id n = i /\ version n = v.
Proof.
  intros Hcache. unfold getItemData.
  destruct (String.eqb i "SML").
  - destruct (getSMLVersionInfo catalog v) as [[info|]|e]; inversion 1; now split.
  - destruct (String.eqb i "SatisfactoryGame"); [discriminate|].
    destruct (getCachedMod catalog i v) as [modData|e] eqn:E; inversion 1; simpl.
    now apply Hcache.
Qed.

(** The loop ends with [found] only by adding the data of the version it
    popped first. *)
Lemma tryVersions_found (dependencyID : string) (stack : list string)
    (nodes nodes' : list LockfileGraphNode) :
  tryVersions semver catalog dependencyID stack nodes = (Ok true, nodes') ->
  exists v rest itemData,
    stack = v :: rest
    /\ getItemData semver catalog dependencyID v = Ok itemData
    /\ nodes' = snd (add itemData nodes).
Proof.
  destruct stack as [|v rest]; [discriminate|].
  destruct (String.eqb v "") eqn:Hv.
  - simpl. rewrite Hv. discriminate.
  - rewrite tryVersions_cons by exact Hv.
    destruct (getItemData semver catalog dependencyID v) as [itemData|e] eqn:E;
      [|discriminate].
    inversion 1. exists v, rest, itemData. auto.
Qed.

Lemma tryVersions_shape (dependencyID : string) (stack : list string)
    (nodes : list LockfileGraphNode) :
  snd (tryVersions semver catalog dependencyID stack nodes) = nodes
  \/ exists v itemData,
       getItemData semver catalog dependencyID v = Ok itemData
       /\ snd (tryVersions semver catalog dependencyID stack nodes) = snd (add itemData nodes).
Proof.
  destruct stack as [|v rest]; [now left|].
  destruct (String.eqb v "") eqn:Hv.
  - left. simpl. now rewrite Hv.
  - rewrite tryVersions_cons by exact Hv.
    destruct (getItemData semver catalog dependencyID v) as [itemData|e] eqn:E.
    + right. exists v, itemData. auto.
    + now left.
Qed.

(** What [validate] does to the graph for one dependency is: remove the node
    found for that dependency, when it is outside the manifest; and [add]
    nodes that are not marked as in the manifest.  A property that these keep
    is kept, whatever the outcome. *)
Lemma validateDependency_keeps_fine (P : list LockfileGraphNode -> Prop)
    (node : LockfileGraphNode) (dependencyID versionConstraint : string)
    (nodes : list LockfileGraphNode) :
  (forall n nodes0, truthy_bool (isInManifest n) = false ->
                    P nodes0 -> P (snd (add n nodes0))) ->
  (forall d, find (has_id dependencyID) nodes = Some d ->
             truthy_bool (isInManifest d) = false ->
             P (removeArrayElement nodes d)) ->
  P nodes ->
  P (snd (validateDependency semver catalog node (dependencyID, versionConstraint) nodes)).
Proof.
  intros Hadd Hremove HP.
  destruct (needs_resolving semver (find (has_id dependencyID) nodes) versionConstraint)
    eqn:Hneeds.
  - rewrite validateDependency_resolving by exact Hneeds. cbv zeta.
    unfold needs_resolving in Hneeds.
    assert (HP1 : P (without_found (find (has_id dependencyID) nodes) nodes)
                  /\ match find (has_id dependencyID) nodes with
                     | Some d => truthy_bool (isInManifest d) = false
                     | None => True
                     end).
    { destruct (find (has_id dependencyID) nodes) as [d|] eqn:Hfind; simpl; [|auto].
      apply andb_prop in Hneeds. destruct Hneeds as [_ Hm]. apply negb_true_iff in Hm.
      auto. }
    destruct HP1 as [HP1 Hd].
    destruct (candidates _ _ _ _) as [versions|e]; [|exact HP1].
    assert (HP2 : P (snd (tryVersions semver catalog dependencyID
                            (rev (Array_sort semver versions))
                            (without_found (find (has_id dependencyID) nodes) nodes)))).
    { destruct (tryVersions_shape dependencyID (rev (Array_sort semver versions))
                  (without_found (find (has_id dependencyID) nodes) nodes))
        as [->|[v [itemData [Hdata ->]]]]; [exact HP1|].
      apply Hadd; [|exact HP1].
      now rewrite (getItemData_unmarked _ _ _ Hdata). }
    destruct (tryVersions _ _ _ _ _) as [[[|]|e] nodes2]; simpl in *; auto.
    destruct (find (has_id dependencyID) nodes); auto.
  - destruct (validateDependency_settled semver catalog node _ _ _ Hneeds) as [d [_ ->]].
    exact HP.
Qed.

(** A dependency that is met costs nothing: no node is touched and the
    catalog is not asked. *)
Lemma validateDependency_met (node : LockfileGraphNode) (dependency : string * string)
    (nodes : list LockfileGraphNode) :
  dependency_met semver nodes dependency ->
  validateDependency semver catalog node dependency nodes = (Ok tt, nodes).
Proof.
  destruct dependency as [dependencyID versionConstraint].
  intros [d [Hfind Hsat]]. simpl in Hfind, Hsat.
  destruct (validateDependency_settled semver catalog node dependencyID versionConstraint
              nodes) as [d' [Hd' ->]].
  - unfold needs_resolving. now rewrite Hfind, Hsat.
  - rewrite Hfind in Hd'. inversion Hd'; subst. now rewrite Hsat.
Qed.

Lemma validate_valid (node : LockfileGraphNode) (nodes : list LockfileGraphNode) :
  node_valid semver nodes node -> validate semver catalog node nodes = (Ok tt, nodes).
Proof.
  unfold node_valid, validate, Object_entries.
  induction (dependencies node) as [|dependency rest IH]; simpl; intros Hvalid;
    [reflexivity|].
  unfold bind. rewrite validateDependency_met by (apply Hvalid; now left).
  apply IH. intros; apply Hvalid; now right.
Qed.

(** X6: on a graph in which every dependency of every node is met,
    [validate] on any of its nodes and [validateAll] return normally and
    leave the graph as it is; [validateAll] ends within one turn per node and
    one more. *)
Theorem validateAll_valid_graph :
  forall (nodes : list LockfileGraphNode) (fuel : nat),
    (forall node, In node nodes -> node_valid semver nodes node) ->
    List.length nodes < fuel ->
    (forall node, In node nodes -> validate semver catalog node nodes = (Ok tt, nodes))
    /\ validateAll semver catalog fuel nodes = (Some (Ok tt), nodes).
Proof.
  intros nodes fuel Hvalid Hfuel. split.
  - intros node Hin. apply validate_valid. now apply Hvalid.
  - unfold validateAll.
    assert (H : forall fuel i, List.length nodes - i < fuel ->
                validateAll_from semver catalog fuel i nodes = (Some (Ok tt), nodes)).
    { clear fuel Hfuel. induction fuel as [|fuel IH]; intros i Hlt; [lia|]. simpl.
      destruct (nth_error nodes i) as [graphNode|] eqn:Hnth; [|reflexivity].
      assert (Hi : i < List.length nodes) by (apply nth_error_Some; congruence).
      rewrite validate_valid by (apply Hvalid; eapply nth_error_In; exact Hnth).
      apply IH. lia. }
    apply H. lia.
Qed.

Lemma candidates_satisfy (dependencyID : string) (versionConstraints versions : list string)
    (v : string) :
  findAllVersionsMatchingAll semver catalog dependencyID versionConstraints = Ok versions ->
  In v versions ->
  versionSatisfiesAll (satisfies semver) v versionConstraints = true.
Proof.
  unfold findAllVersionsMatchingAll.
  destruct (String.eqb dependencyID "SML").
  - destruct (getAvailableSMLVersions catalog) as [smlVersions|e]; [|discriminate].
    inversion 1; subst. intros Hin. apply in_map_iff in Hin.
    destruct Hin as [x [<- Hx]]. now apply filter_In in Hx.
  - destruct (getMod catalog dependencyID) as [[modInfo|]|e]; try discriminate.
    inversion 1; subst. intros Hin. apply in_map_iff in Hin.
    destruct Hin as [x [<- Hx]]. now apply filter_In in Hx.
Qed.

Lemma find_none_existsb (i : string) (nodes : list LockfileGraphNode) :
  find (has_id i) nodes = None -> existsb (has_id i) nodes = false.
Proof.
  induction nodes as [|x rest IH]; simpl; [reflexivity|].
  destruct (has_id i x); [discriminate | exact IH].
Qed.

Lemma existsb_none_find (i : string) (nodes : list LockfileGraphNode) :
  existsb (has_id i) nodes = false -> find (has_id i) nodes = None.
Proof.
  induction nodes as [|x rest IH]; simpl; [reflexivity|].
  destruct (has_id i x); [discriminate | exact IH].
Qed.

(** When [validate] gets through a dependency of a node of the graph, the
    dependency is met afterwards. *)
Lemma validateDependency_sound (node : LockfileGraphNode)
    (dependencyID versionConstraint : string) (nodes nodes' : list LockfileGraphNode) :
  coherent_cache catalog ->
  unique_ids nodes ->
  In node nodes -> id node <> dependencyID ->
  obj_get (dependencies node) dependencyID = Some versionConstraint ->
  validateDependency semver catalog node (dependencyID, versionConstraint) nodes
  = (Ok tt, nodes') ->
  dependency_met semver nodes' (dependencyID, versionConstraint).
Proof.
  intros Hcache Huniq Hnode Hself Hget.
  destruct (needs_resolving semver (find (has_id dependencyID) nodes) versionConstraint)
    eqn:Hneeds.
  - rewrite validateDependency_resolving by exact Hneeds. cbv zeta.
    set (nodes1 := without_found (find (has_id dependencyID) nodes) nodes).
    assert (Hfree : existsb (has_id dependencyID) nodes1 = false).
    { unfold nodes1. destruct (find (has_id dependencyID) nodes) as [d|] eqn:Hfind; simpl.
      - destruct (find_has_id _ _ _ Hfind) as [Hin <-]. now apply unique_ids_remove.
      - now apply find_none_existsb. }
    assert (Hnode1 : In node nodes1).
    { unfold nodes1. destruct (find (has_id dependencyID) nodes) as [d|] eqn:Hfind; simpl;
        [|exact Hnode].
      apply removeArrayElement_keeps; [exact Hnode|].
      intros ->. destruct (find_has_id _ _ _ Hfind) as [_ E]. contradiction. }
    destruct (candidates semver catalog dependencyID nodes1) as [versions|e] eqn:Hcands;
      [|discriminate].
    destruct (tryVersions _ _ _ _ _) as [[[|]|e] nodes2] eqn:Hloop; try discriminate.
    inversion 1; subst nodes2.
    destruct (tryVersions_found _ _ _ _ Hloop) as [v [rest [itemData [Hstack [Hdata ->]]]]].
    destruct (getItemData_coherent _ _ _ Hcache Hdata) as [Hid Hversion].
    rewrite add_result. cbn [snd]. rewrite Hid, Hfree.
    exists itemData. cbn [fst snd]. split.
    + rewrite find_app_split, (existsb_none_find _ _ Hfree). simpl.
      unfold has_id. now rewrite Hid, String.eqb_refl.
    + rewrite Hversion.
      assert (Hv : In v versions).
      { apply (Array_sort_In semver). apply in_rev. rewrite Hstack. now left. }
      pose proof (candidates_satisfy _ _ _ _ Hcands Hv) as Hall.
      unfold versionSatisfiesAll in Hall. rewrite forallb_forall in Hall. apply Hall.
      unfold collectConstraints. apply in_map_iff. exists node. rewrite Hget.
      split; [reflexivity|]. apply filter_In. split; [exact Hnode1|].
      apply obj_in_get. eauto.
  - destruct (validateDependency_settled semver catalog node _ _ _ Hneeds)
      as [d [Hfind ->]].
    destruct (satisfies semver (version d) versionConstraint) eqn:Hsat; [|discriminate].
    inversion 1; subst. exists d. auto.
Qed.

End ValidationOutcomes.

Section ValidationGuarantees.

Variable semver : Semver.
Variable catalog : Catalog.

Lemma dependency_met_add (dependency : string * string) (n : LockfileGraphNode)
    (nodes : list LockfileGraphNode) :
  dependency_met semver nodes dependency ->
  dependency_met semver (snd (add n nodes)) dependency.
Proof.
  intros [d [Hfind Hsat]]. exists d. split; [|exact Hsat].
  rewrite add_result. cbn [snd].
  destruct (existsb (has_id (id n)) nodes); [exact Hfind | now apply find_app_found].
Qed.

Lemma dependency_met_remove (dependency : string * string) (i : string)
    (x : LockfileGraphNode) (nodes : list LockfileGraphNode) :
  fst dependency <> i ->
  find (has_id i) nodes = Some x ->
  dependency_met semver nodes dependency ->
  dependency_met semver (removeArrayElement nodes x) dependency.
Proof.
  intros Hne Hx [d [Hfind Hsat]]. exists d. split; [|exact Hsat].
  destruct (find_has_id _ _ _ Hx) as [_ Hidx].
  destruct (find_has_id _ _ _ Hfind) as [_ Hidd].
  apply find_after_remove; [exact Hfind | now rewrite Hidx |].
  intros ->. congruence.
Qed.

(** The dependencies of a node, taken in turn: those gone through are met,
    the node is still there and the ids are still unique. *)
Lemma forEachAsync_sound (node : LockfileGraphNode) :
  coherent_cache catalog ->
  NoDup (Object_keys (dependencies node)) ->
  obj_in (id node) (dependencies node) = false ->
  forall (todo done : list (string * string)) (nodes nodes' : list LockfileGraphNode),
    dependencies node = (done ++ todo)%list ->
    unique_ids nodes -> In node nodes ->
    (forall dependency, In dependency done -> dependency_met semver nodes dependency) ->
    forEachAsync todo (validateDependency semver catalog node) nodes = (Ok tt, nodes') ->
    unique_ids nodes' /\ In node nodes'
    /\ (forall dependency, In dependency (done ++ todo) ->
                           dependency_met semver nodes' dependency).
Proof.
  intros Hcache Hkeys Hself.
  induction todo as [|[dependencyID versionConstraint] todo IH];
    intros done nodes nodes' Hdeps Huniq Hnode Hdone; simpl.
  - inversion 1; subst. rewrite app_nil_r. auto.
  - unfold bind.
    destruct (validateDependency semver catalog node (dependencyID, versionConstraint) nodes)
      as [[[]|e] nodes1] eqn:Hstep; [|discriminate].
    assert (Hin : In (dependencyID, versionConstraint) (dependencies node))
      by (rewrite Hdeps; apply in_or_app; right; now left).
    assert (Hget : obj_get (dependencies node) dependencyID = Some versionConstraint)
      by (now apply obj_get_In).
    assert (Hne : id node <> dependencyID).
    { intros E. assert (H : obj_in (id node) (dependencies node) = true)
        by (apply obj_in_get; rewrite E; eauto). congruence. }
    assert (Hother : forall dependency, In dependency done -> fst dependency <> dependencyID).
    { intros [k c] Hk E. simpl in E. subst k.
      unfold Object_keys in Hkeys. rewrite Hdeps, map_app in Hkeys. simpl in Hkeys.
      apply NoDup_remove_2 in Hkeys. apply Hkeys. apply in_or_app. left.
      change dependencyID with (fst (dependencyID, c)). now apply in_map. }
    assert (Huniq1 : unique_ids nodes1).
    { replace nodes1 with
        (snd (validateDependency semver catalog node (dependencyID, versionConstraint) nodes))
        by now rewrite Hstep.
      apply validateDependency_keeps; [| |exact Huniq].
      - intros n nodes0. apply unique_ids_add.
      - intros d nodes0 H _ _. now apply unique_ids_removeArrayElement. }
    assert (Hnode1 : In node nodes1).
    { replace nodes1 with
        (snd (validateDependency semver catalog node (dependencyID, versionConstraint) nodes))
        by now rewrite Hstep.
      apply validateDependency_keeps_fine; [| |exact Hnode].
      - intros n nodes0 _. apply add_keeps.
      - intros d Hfind _. apply removeArrayElement_keeps; [exact Hnode|].
        intros ->. destruct (find_has_id _ _ _ Hfind) as [_ E]. contradiction. }
    assert (Hdone1 : forall dependency,
               In dependency (done ++ [(dependencyID, versionConstraint)]) ->
               dependency_met semver nodes1 dependency).
    { intros dependency Hd. apply in_app_or in Hd. destruct Hd as [Hd|[<-|[]]].
      - replace nodes1 with
          (snd (validateDependency semver catalog node (dependencyID, versionConstraint)
                  nodes)) by now rewrite Hstep.
        apply validateDependency_keeps_fine; [| |now apply Hdone].
        + intros n nodes0 _. apply dependency_met_add.
        + intros d Hfind _. apply (dependency_met_remove dependency dependencyID);
            auto.
      - exact (validateDependency_sound semver catalog node dependencyID versionConstraint
                 nodes nodes1 Hcache Huniq Hnode Hne Hget Hstep). }
    intros Hrest.
    replace (done ++ (dependencyID, versionConstraint) :: todo)%list
      with ((done ++ [(dependencyID, versionConstraint)]) ++ todo)%list
      by (rewrite <- app_assoc; reflexivity).
    apply (IH (done ++ [(dependencyID, versionConstraint)])%list nodes1 nodes'); auto.
    rewrite <- app_assoc. exact Hdeps.
Qed.

(** X7: [validate] is sound for the node it is called on.  In a graph with
    unique ids, for a node of the graph that does not depend on its own id,
    and a mod cache that delivers the mod and version asked for: when
    [validate] returns normally, every dependency of the node is met in the
    resulting graph (a node of that id is there and its version satisfies the
    constraint), the node is still in the graph and the ids are still
    unique. *)
Theorem validate_sound :
  forall (node : LockfileGraphNode) (nodes nodes' : list LockfileGraphNode),
    coherent_cache catalog ->
    unique_ids nodes -> In node nodes ->
    NoDup (Object_keys (dependencies node)) ->
    obj_in (id node) (dependencies node) = false ->
    validate semver catalog node nodes = (Ok tt, nodes') ->
    node_valid semver nodes' node /\ In node nodes' /\ unique_ids nodes'.
Proof.
  intros node nodes nodes' Hcache Huniq Hnode Hkeys Hself Hvalidate.
  destruct (forEachAsync_sound node Hcache Hkeys Hself (dependencies node) [] nodes nodes')
    as [H1 [H2 H3]]; auto.
  intros dependency [].
Qed.

(** X8: [validate] and [validateAll] neither create nor drop manifest nodes:
    a node marked as in the manifest is in the graph afterwards exactly when
    it was before, whether the call returns, throws or is cut short. *)
Theorem manifest_set_unchanged :
  forall (m : LockfileGraphNode) (nodes : list LockfileGraphNode),
    truthy_bool (isInManifest m) = true ->
    (forall node, In m (snd (validate semver catalog node nodes)) <-> In m nodes)
    /\ (forall fuel, In m (snd (validateAll semver catalog fuel nodes)) <-> In m nodes).
Proof.
  intros m nodes Hm.
  assert (Hkeep : forall node nodes0,
             In m nodes0 -> In m (snd (validate semver catalog node nodes0))).
  { intros node nodes0. apply validate_keeps.
    - intros n nodes1. apply add_keeps.
    - intros d nodes1 Hin1 _ Hd. apply removeArrayElement_keeps; [exact Hin1|].
      intros ->. congruence. }
  assert (Hnew : forall node nodes0,
             (In m nodes0 -> In m nodes) ->
             In m (snd (validate semver catalog node nodes0)) -> In m nodes).
  { intros node nodes0. unfold validate.
    apply (forEachAsync_keeps _ (validateDependency semver catalog node)
             (fun nodes1 => In m nodes1 -> In m nodes)).
    intros [dependencyID versionConstraint] nodes1 H1.
    apply (validateDependency_keeps_fine semver catalog
             (fun nodes2 => In m nodes2 -> In m nodes)); [| |exact H1].
    - intros n nodes2 Hn H2. rewrite add_result. cbn [snd].
      destruct (existsb (has_id (id n)) nodes2); [exact H2|].
      intros Hin. apply in_app_or in Hin. destruct Hin as [Hin|[<-|[]]]; [auto|].
      congruence.
    - intros d _ _ Hin. apply H1. now apply removeArrayElement_incl in Hin. }
  split.
  - intros node. split; [now apply Hnew | apply Hkeep].
  - intros fuel. unfold validateAll. split.
    + apply (validateAll_from_keeps semver catalog (fun nodes0 => In m nodes0 -> In m nodes));
        auto.
    + now apply validateAll_from_keeps.
Qed.

(** X9: [validate] and [validateAll] keep the ids of the graph unique,
    whatever the outcome. *)
Theorem unique_ids_preserved :
  forall nodes : list LockfileGraphNode,
    unique_ids nodes ->
    (forall node, unique_ids (snd (validate semver catalog node nodes)))
    /\ (forall fuel, unique_ids (snd (validateAll semver catalog fuel nodes))).
Proof.
  intros nodes Huniq. split.
  - intros node. now apply validate_keeps_unique_ids.
  - intros fuel. unfold validateAll. apply validateAll_from_keeps; [|exact Huniq].
    intros node nodes0. apply validate_keeps_unique_ids.
Qed.

(** X10: a dependency that has no node in the graph and for which the catalog
    lists no version matching the constraints makes [validate] fail with
    [UnsolvableDependencyError], naming the dependency and the node, and
    leaves the graph as the dependencies before it left it. *)
Theorem missing_dependency_unsolvable :
  forall (node : LockfileGraphNode) (front after : list (string * string))
         (dependencyID versionConstraint : string) (nodes0 nodes : list LockfileGraphNode),
    dependencies node = (front ++ (dependencyID, versionConstraint) :: after)%list ->
    forEachAsync front (validateDependency semver catalog node) nodes0 = (Ok tt, nodes) ->
    find (has_id dependencyID) nodes = None ->
    candidates semver catalog dependencyID nodes = Ok [] ->
    validate semver catalog node nodes0
    = (Err (UnsolvableDependencyError
              ("No version found for dependency " ++ dependencyID ++ " of " ++ id node)),
       nodes).
Proof.
  intros node front after dependencyID versionConstraint nodes0 nodes Hdeps Hfront Hfind
         Hcands.
  eapply validate_rejects_at; [exact Hdeps | exact Hfront |].
  rewrite validateDependency_resolving
    by (unfold needs_resolving; now rewrite Hfind).
  cbv zeta. rewrite Hfind. cbn [without_found]. now rewrite Hcands.
Qed.

(** X11: when the catalog query for the candidates is rejected, [validate]
    is rejected with the same error and the node it had removed for the
    dependency is not put back.  A mod that the catalog does not know is such
    a case: [getMod] answers [null] and reading its versions is a
    [TypeError], not a [ModNotFoundError]. *)
Theorem catalog_rejection_propagates :
  forall (node : LockfileGraphNode) (front after : list (string * string))
         (dependencyID versionConstraint : string) (nodes0 nodes : list LockfileGraphNode),
    let nodes1 := without_found (find (has_id dependencyID) nodes) nodes in
    dependencies node = (front ++ (dependencyID, versionConstraint) :: after)%list ->
    forEachAsync front (validateDependency semver catalog node) nodes0 = (Ok tt, nodes) ->
    needs_resolving semver (find (has_id dependencyID) nodes) versionConstraint = true ->
    (forall e, candidates semver catalog dependencyID nodes1 = Err e ->
               validate semver catalog node nodes0 = (Err e, nodes1))
    /\ (String.eqb dependencyID "SML" = false -> getMod catalog dependencyID = Ok None ->
        validate semver catalog node nodes0
        = (Err (OtherError "TypeError: Cannot read property 'versions' of null"), nodes1)).
Proof.
  intros node front after dependencyID versionConstraint nodes0 nodes nodes1 Hdeps Hfront
         Hneeds.
  assert (H : forall e, candidates semver catalog dependencyID nodes1 = Err e ->
                        validate semver catalog node nodes0 = (Err e, nodes1)).
  { intros e Hcands. eapply validate_rejects_at; [exact Hdeps | exact Hfront |].
    rewrite validateDependency_resolving by exact Hneeds. cbv zeta. fold nodes1.
    now rewrite Hcands. }
  split; [exact H|]. intros Hsml Hmod. apply H.
  unfold candidates, findAllVersionsMatchingAll. now rewrite Hsml, Hmod.
Qed.

End ValidationGuarantees.

(** ** The catalog client *)

Section SortBy.

Variable T : Type.
Variable comparator : T -> T -> Z.
Hypothesis comparator_total :
  forall a b, (comparator a b <= 0)%Z \/ (comparator b a <= 0)%Z.
Hypothesis comparator_trans :
  forall a b c, (comparator a b <= 0)%Z -> (comparator b c <= 0)%Z ->
                (comparator a c <= 0)%Z.

Lemma sort_insert_by_In (a x : T) (sorted : list T) :
  In x (sort_insert_by comparator a sorted) <-> x = a \/ In x sorted.
Proof.
  induction sorted as [|b rest IH]; simpl.
  - intuition.
  - destruct (comparator a b <=? 0)%Z; simpl; [intuition|].
    rewrite IH. intuition.
Qed.

Lemma Array_sort_by_In (x : T) (array : list T) :
  In x (Array_sort_by comparator array) <-> In x array.
Proof.
  induction array as [|a rest IH]; simpl; [tauto|].
  rewrite sort_insert_by_In, IH. intuition.
Qed.

Lemma Array_sort_by_sorted (array : list T) :
  StronglySorted (fun a b => (comparator a b <= 0)%Z) (Array_sort_by comparator array).
Proof.
  induction array as [|a rest IH]; simpl; [constructor|].
  generalize dependent (Array_sort_by comparator rest). clear rest.
  induction l as [|b sorted IHs]; simpl; intros Hs.
  - constructor; constructor.
  - inversion Hs as [|? ? Hrest Hb]; subst.
    destruct (Z.leb_spec (comparator a b) 0) as [Hab|Hab].
    + constructor; [exact Hs|]. constructor; [exact Hab|].
      rewrite Forall_forall in *. intros x Hx. eapply comparator_trans; [exact Hab | auto].
    + constructor; [auto|].
      rewrite Forall_forall in *. intros x Hx. apply sort_insert_by_In in Hx.
      destruct Hx as [->|Hx]; [|auto].
      destruct (comparator_total a b) as [H|H]; [lia | exact H].
Qed.

(** The first element of the sorted array is an element of the array that
    the comparator puts before every other, and there is one unless the array
    is empty. *)
Lemma Array_sort_by_first (array : list T) :
  match hd_error (Array_sort_by comparator array) with
  | Some first =>
      In first array /\ forall x, In x array -> (comparator first x <= 0)%Z
  | None => array = []
  end.
Proof.
  pose proof (Array_sort_by_sorted array) as Hs.
  pose proof (fun x => Array_sort_by_In x array) as Hin.
  destruct (Array_sort_by comparator array) as [|first rest]; simpl.
  - destruct array as [|a array]; [reflexivity|].
    exfalso. apply (Hin a). now left.
  - split; [apply Hin; now left|]. intros x Hx. apply Hin in Hx.
    inversion Hs as [|? ? _ Hall]; subst. destruct Hx as [<-|Hx].
    + destruct (comparator_total first first); assumption.
    + rewrite Forall_forall in Hall. now apply Hall.
Qed.

End SortBy.

Section SortByOn.

Variable T : Type.
Variable comparator : T -> T -> Z.
Variable domain : T -> Prop.
Hypothesis total_on :
  forall a b, domain a -> domain b ->
              (comparator a b <= 0)%Z \/ (comparator b a <= 0)%Z.
Hypothesis trans_on :
  forall a b c, domain a -> domain b -> domain c ->
                (comparator a b <= 0)%Z -> (comparator b c <= 0)%Z ->
                (comparator a c <= 0)%Z.

Lemma sort_insert_by_sorted_on (a : T) (sorted : list T) :
  domain a -> (forall x, In x sorted -> domain x) ->
  StronglySorted (fun a b => (comparator a b <= 0)%Z) sorted ->
  StronglySorted (fun a b => (comparator a b <= 0)%Z) (sort_insert_by comparator a sorted).
Proof.
  intros Ha. induction sorted as [|b sorted IH]; simpl; intros Hdom Hs.
  - constructor; constructor.
  - inversion Hs as [|? ? Hrest Hb]; subst.
    assert (Hdb : domain b) by (apply Hdom; now left).
    assert (Hdrest : forall x, In x sorted -> domain x) by (intros; apply Hdom; now right).
    destruct (Z.leb_spec (comparator a b) 0) as [Hab|Hab].
    + constructor; [exact Hs|]. constructor; [exact Hab|].
      rewrite Forall_forall in *. intros x Hx.
      apply (trans_on a b x); auto.
    + constructor; [auto|].
      rewrite Forall_forall in *. intros x Hx. apply sort_insert_by_In in Hx.
      destruct Hx as [->|Hx]; [|auto].
      destruct (total_on a b Ha Hdb) as [H|H]; [lia | exact H].
Qed.

Lemma Array_sort_by_sorted_on (array : list T) :
  (forall x, In x array -> domain x) ->
  StronglySorted (fun a b => (comparator a b <= 0)%Z) (Array_sort_by comparator array).
Proof.
  induction array as [|a rest IH]; simpl; intros Hdom; [constructor|].
  apply sort_insert_by_sorted_on.
  - apply Hdom. now left.
  - intros x Hx. apply Array_sort_by_In in Hx. apply Hdom. now right.
  - apply IH. intros; apply Hdom; now right.
Qed.

(** On an array of elements of the domain on which the comparator is
    consistent, the first element of the sorted array is an element that the
    comparator puts before every other. *)
Lemma Array_sort_by_first_on (array : list T) :
  (forall x, In x array -> domain x) ->
  match hd_error (Array_sort_by comparator array) with
  | Some first =>
      In first array /\ forall x, In x array -> (comparator first x <= 0)%Z
  | None => array = []
  end.
Proof.
  intros Hdom.
  pose proof (Array_sort_by_sorted_on array Hdom) as Hs.
  pose proof (fun x => Array_sort_by_In T comparator x array) as Hin.
  destruct (Array_sort_by comparator array) as [|first rest]; simpl.
  - destruct array as [|a array]; [reflexivity|].
    exfalso. apply (Hin a). now left.
  - assert (Hfirst : In first array) by (apply Hin; now left).
    split; [exact Hfirst|]. intros x Hx. pose proof Hx as Hx'. apply Hin in Hx.
    inversion Hs as [|? ? _ Hall]; subst. destruct Hx as [<-|Hx].
    + destruct (total_on first first); auto.
    + rewrite Forall_forall in Hall. now apply Hall.
Qed.

End SortByOn.

Section CatalogClientProperties.

Variable semver : Semver.
Variable catalog : Catalog.

Lemma findVersion_fold (versionConstraints : list string) (versions : list FicsitAppVersion)
    (finalVersion : string) :
  fold_left (fun (state : string * bool) modVersion =>
               let (finalVersion, found) := state in
               if negb found
                  && versionSatisfiesAll (satisfies semver) (fv_version modVersion)
                       versionConstraints
               then (fv_version modVersion, true)
               else (finalVersion, found))
            versions (finalVersion, false)
  = match filter (fun modVersion =>
                    versionSatisfiesAll (satisfies semver) (fv_version modVersion)
                      versionConstraints) versions with
    | first :: _ => (fv_version first, true)
    | [] => (finalVersion, false)
    end.
Proof.
  revert finalVersion. induction versions as [|x versions IH]; simpl; intros finalVersion;
    [reflexivity|].
  destruct (versionSatisfiesAll (satisfies semver) (fv_version x) versionConstraints);
    simpl; [|apply IH].
  clear IH. generalize (fv_version x). intros v.
  induction versions as [|y versions IH]; simpl; [reflexivity | exact IH].
Qed.

(** X12: [findVersionMatchingAll] gives the first version, in the order the
    catalog lists them, that satisfies every constraint, and [undefined] when
    none does: for a mod it is the first element of what
    [findAllVersionsMatchingAll] gives, which need not be the highest
    version.  It fails as that function fails. *)
Theorem findVersionMatchingAll_first :
  forall (modID : string) (versionConstraints : list string),
    String.eqb modID "SML" = false ->
    findVersionMatchingAll semver catalog modID versionConstraints
    = match findAllVersionsMatchingAll semver catalog modID versionConstraints with
      | Ok versions => Ok (hd_error versions)
      | Err e => Err e
      end.
Proof.
  intros modID versionConstraints Hsml.
  unfold findVersionMatchingAll, findAllVersionsMatchingAll. rewrite Hsml.
  destruct (getMod catalog modID) as [[modInfo|]|e]; try reflexivity.
  rewrite findVersion_fold.
  destruct (filter _ (fm_versions modInfo)); reflexivity.
Qed.

Hypothesis comparator : consistent_on_versions semver.

Lemma newest_first_flip (a b : string) :
  is_version semver a = true -> is_version semver b = true ->
  ((- compare semver a b <= 0)%Z <-> (compare semver b a <= 0)%Z).
Proof.
  intros Ha Hb. destruct comparator as [Hanti _]. specialize (Hanti a b Ha Hb).
  destruct (Z.sgn_spec (compare semver a b)) as [[? ?]|[[? ?]|[? ?]]];
  destruct (Z.sgn_spec (compare semver b a)) as [[? ?]|[[? ?]|[? ?]]]; lia.
Qed.

Lemma newest_first_total (T : Type) (version_of_item : T -> string) (a b : T) :
  is_version semver (version_of_item a) = true ->
  is_version semver (version_of_item b) = true ->
  (- compare semver (version_of_item a) (version_of_item b) <= 0)%Z
  \/ (- compare semver (version_of_item b) (version_of_item a) <= 0)%Z.
Proof.
  intros Ha Hb. destruct comparator as [Hanti _]. specialize (Hanti _ _ Ha Hb).
  destruct (Z.sgn_spec (compare semver (version_of_item a) (version_of_item b)))
    as [[? ?]|[[? ?]|[? ?]]];
  destruct (Z.sgn_spec (compare semver (version_of_item b) (version_of_item a)))
    as [[? ?]|[[? ?]|[? ?]]]; lia.
Qed.

Lemma newest_first_trans (T : Type) (version_of_item : T -> string) (a b c : T) :
  is_version semver (version_of_item a) = true ->
  is_version semver (version_of_item b) = true ->
  is_version semver (version_of_item c) = true ->
  (- compare semver (version_of_item a) (version_of_item b) <= 0)%Z ->
  (- compare semver (version_of_item b) (version_of_item c) <= 0)%Z ->
  (- compare semver (version_of_item a) (version_of_item c) <= 0)%Z.
Proof.
  intros Ha Hb Hc. rewrite !newest_first_flip by assumption. intros Hab Hbc.
  destruct comparator as [_ Htrans]. apply (Htrans _ (version_of_item b)); assumption.
Qed.

(** The four cases of the sort and the read of the first element. *)
Lemma newestFirst_cases (T : Type) (version_of_item : T -> string) (versions : list T) :
  (versions = [] -> newestFirst semver version_of_item versions = Ok None)
  /\ (forall only, versions = [only] ->
                   newestFirst semver version_of_item versions = Ok (Some only))
  /\ (2 <= List.length versions ->
      (exists v, In v versions /\ is_version semver (version_of_item v) = false) ->
      newestFirst semver version_of_item versions
      = Err (OtherError "TypeError: Invalid Version"))
  /\ ((forall v, In v versions -> is_version semver (version_of_item v) = true) ->
      versions <> [] ->
      exists latest,
        newestFirst semver version_of_item versions = Ok (Some latest)
        /\ In latest versions
        /\ forall v, In v versions ->
                     (compare semver (version_of_item v) (version_of_item latest) <= 0)%Z).
Proof.
  split; [|split; [|split]].
  - intros ->. reflexivity.
  - intros only ->. reflexivity.
  - intros Hlen [v [Hin Hv]]. unfold newestFirst.
    apply Nat.leb_le in Hlen. rewrite Hlen. simpl.
    assert (Hall : forallb (fun item => is_version semver (version_of_item item)) versions
                   = false).
    { apply not_true_is_false. intros H. rewrite forallb_forall in H.
      specialize (H v Hin). simpl in H. congruence. }
    now rewrite Hall.
  - intros Hall Hne. unfold newestFirst.
    assert (Hforall : forallb (fun item => is_version semver (version_of_item item)) versions
                      = true) by (apply forallb_forall; exact Hall).
    rewrite Hforall, andb_false_r.
    pose proof (Array_sort_by_first_on _
                  (fun a b => (- compare semver (version_of_item a) (version_of_item b))%Z)
                  (fun x => is_version semver (version_of_item x) = true)
                  (newest_first_total _ version_of_item)
                  (newest_first_trans _ version_of_item) versions Hall) as H.
    destruct (hd_error _) as [latest|]; [|contradiction].
    destruct H as [Hin Hmax]. exists latest. split; [reflexivity|]. split; [exact Hin|].
    intros v Hv. apply newest_first_flip; auto.
Qed.

Variable getModVersions : string -> Result (list FicsitAppVersion).

(** X13: [getLatestSMLVersion] and [getModLatestVersion] on the list the
    catalog answers.  An empty list gives [undefined]; a list of one release
    gives that release, uncompared; a list of two or more in which some
    version string is no version makes the sort throw a [TypeError]; and when
    every version string is a version, and [compare] is a consistent
    comparator on versions, the result is a release of the list that no
    release of the list exceeds.  A failure of the catalog query is passed
    on. *)
Theorem latest_version_is_highest :
  (forall versions,
      getAvailableSMLVersions catalog = Ok versions ->
      (versions = [] -> getLatestSMLVersion semver catalog = Ok None)
      /\ (forall only, versions = [only] ->
                       getLatestSMLVersion semver catalog = Ok (Some only))
      /\ (2 <= List.length versions ->
          (exists v, In v versions /\ is_version semver (smlv_version v) = false) ->
          getLatestSMLVersion semver catalog
          = Err (OtherError "TypeError: Invalid Version"))
      /\ ((forall v, In v versions -> is_version semver (smlv_version v) = true) ->
          versions <> [] ->
          exists latest,
            getLatestSMLVersion semver catalog = Ok (Some latest)
            /\ In latest versions
            /\ forall v, In v versions ->
                         (compare semver (smlv_version v) (smlv_version latest) <= 0)%Z))
  /\ (forall modID versions,
         getModVersions modID = Ok versions ->
         (versions = [] -> getModLatestVersion semver getModVersions modID = Ok None)
         /\ (forall only, versions = [only] ->
                          getModLatestVersion semver getModVersions modID = Ok (Some only))
         /\ (2 <= List.length versions ->
             (exists v, In v versions /\ is_version semver (fv_version v) = false) ->
             getModLatestVersion semver getModVersions modID
             = Err (OtherError "TypeError: Invalid Version"))
         /\ ((forall v, In v versions -> is_version semver (fv_version v) = true) ->
             versions <> [] ->
             exists latest,
               getModLatestVersion semver getModVersions modID = Ok (Some latest)
               /\ In latest versions
               /\ forall v, In v versions ->
                            (compare semver (fv_version v) (fv_version latest) <= 0)%Z))
  /\ (forall e, getAvailableSMLVersions catalog = Err e ->
                getLatestSMLVersion semver catalog = Err e)
  /\ (forall modID e, getModVersions modID = Err e ->
                      getModLatestVersion semver getModVersions modID = Err e).
Proof.
  split; [|split; [|split]].
  - intros versions Hcat. unfold getLatestSMLVersion. rewrite Hcat.
    apply newestFirst_cases.
  - intros modID versions Hcat. unfold getModLatestVersion. rewrite Hcat.
    apply newestFirst_cases.
  - intros e Hcat. unfold getLatestSMLVersion. now rewrite Hcat.
  - intros modID e Hcat. unfold getModLatestVersion. now rewrite Hcat.
Qed.

End CatalogClientProperties.

(** ** More on [lockfileDifference] *)

Section Difference.

Variables oldLockfile newLockfile : Lockfile.










End Difference.

(** ** The request cache *)

Section RequestCacheProperties.

Lemma cachedRequest_hit (now later : Z) (response : Outcome Json) (requestID : string)
    (store : Json -> Outcome Json) (cachedFetch : RequestCache) (fetch : FicsitAppFetch) :
  obj_get cachedFetch requestID = Some fetch ->
  (now - fetch_time fetch <= fetchCooldown)%Z ->
  cachedRequest now later response requestID store cachedFetch
  = (Returned (fetch_data fetch), cachedFetch).
Proof.
  intros Hget Hfresh. unfold cachedRequest, cooldownPassed, getCache. rewrite Hget.
  destruct (Z.gtb_spec (now - fetch_time fetch) fetchCooldown); [lia | reflexivity].
Qed.

Lemma cachedRequest_stores (now later : Z) (res errors d : Json) (requestID : string)
    (store : Json -> Outcome Json) (cachedFetch : RequestCache) :
  cooldownPassed requestID now cachedFetch = true ->
  js_get res "errors" = Returned errors -> js_truthy errors = false ->
  store res = Returned d ->
  cachedRequest now later (Returned res) requestID store cachedFetch
  = (Returned d, setCache requestID d later cachedFetch)
    /\ obj_get (setCache requestID d later cachedFetch) requestID = Some (mkFetch later d).
Proof.
  intros Hpassed Herrors Hfalsy Hstore. unfold cachedRequest.
  rewrite Hpassed, Herrors, Hfalsy, Hstore. unfold getCache, setCache.
  now rewrite obj_get_set_same.
Qed.

Lemma cachedRequest_throws (now later : Z) (response : Outcome Json) (requestID : string)
    (store : Json -> Outcome Json) (cachedFetch : RequestCache) (t : Thrown) :
  cooldownPassed requestID now cachedFetch = true ->
  (response = Threw t
   \/ (exists res errors,
         response = Returned res /\ js_get res "errors" = Returned errors
         /\ js_truthy errors = true /\ t = ThrownValue errors)
   \/ (exists res errors,
         response = Returned res /\ js_get res "errors" = Returned errors
         /\ js_truthy errors = false /\ store res = Threw t)) ->
  cachedRequest now later response requestID store cachedFetch = (Threw t, cachedFetch).
Proof.
  intros Hpassed H. unfold cachedRequest. rewrite Hpassed.
  destruct H as [->|[[res [errors [-> [Herrors [Htruthy ->]]]]]
                    |[res [errors [-> [Herrors [Hfalsy Hstore]]]]]]].
  - reflexivity.
  - now rewrite Herrors, Htruthy.
  - now rewrite Herrors, Hfalsy, Hstore.
Qed.

(** X16: within the cooldown the cache answers.  When the cache holds an
    answer for the request that is at most five minutes (300000 ms) old,
    [getMod], [getModVersions] and [getAvailableSMLVersions] return that
    answer and leave the cache as it is, whatever the server would answer:
    the query is not used.  An answer exactly 300000 ms old is still
    served. *)
Theorem requests_served_from_cache :
  forall (now later : Z) (response : Outcome Json) (cachedFetch : RequestCache)
         (fetch : FicsitAppFetch),
    (now - fetch_time fetch <= 300000)%Z ->
    (forall modID,
        obj_get cachedFetch ("getMod_" ++ modID) = Some fetch ->
        getMod_request now later response modID cachedFetch
        = (Returned (fetch_data fetch), cachedFetch))
    /\ (forall modID,
           obj_get cachedFetch ("getModVersions_" ++ modID) = Some fetch ->
           getModVersions_request now later response modID cachedFetch
           = (Returned (fetch_data fetch), cachedFetch))
    /\ (obj_get cachedFetch "getSMLVersions" = Some fetch ->
        getAvailableSMLVersions_request now later response cachedFetch
        = (Returned (fetch_data fetch), cachedFetch)).
Proof.
  intros now later response cachedFetch fetch Hfresh.
  repeat split; intros; now apply cachedRequest_hit.
Qed.

(** X17: a fetch is served again.  When the cooldown has passed (or nothing
    is cached) and the server answers [getMod] without errors, the call
    returns the [getMod] field of the answer and stores it with the time of
    storing; any call for the same mod at most 300000 ms after that time
    returns the same value and leaves the cache alone, whatever the server
    would answer then. *)
Theorem getMod_fetch_then_cached :
  forall (now later now2 later2 : Z) (res errors d : Json) (response2 : Outcome Json)
         (modID : string) (cachedFetch : RequestCache),
    cooldownPassed ("getMod_" ++ modID) now cachedFetch = true ->
    js_get res "errors" = Returned errors -> js_truthy errors = false ->
    js_get res "getMod" = Returned d ->
    (now2 - later <= 300000)%Z ->
    exists cachedFetch',
      getMod_request now later (Returned res) modID cachedFetch = (Returned d, cachedFetch')
      /\ getMod_request now2 later2 response2 modID cachedFetch' = (Returned d, cachedFetch').
Proof.
  intros now later now2 later2 res errors d response2 modID cachedFetch
         Hpassed Herrors Hfalsy Hmod Hfresh.
  destruct (cachedRequest_stores now later res errors d ("getMod_" ++ modID)
              (fun res => js_get res "getMod") cachedFetch Hpassed Herrors Hfalsy Hmod)
    as [Hcall Hstored].
  eexists. split; [exact Hcall|].
  apply (cachedRequest_hit now2 later2 response2 _ _ _ (mkFetch later d)); [exact Hstored|].
  exact Hfresh.
Qed.

(** X18: errors are thrown and not cached.  Past the cooldown, when the query
    itself throws, or when the answer has a truthy [errors] field, each of the
    three requests throws (the thrown value is the [errors] field) and leaves
    the cache as it was: the answer cached before stays, and is not
    returned. *)
Theorem request_errors_not_cached :
  forall (now later : Z) (response : Outcome Json) (cachedFetch : RequestCache) (t : Thrown),
    (response = Threw t
     \/ exists res errors,
          response = Returned res /\ js_get res "errors" = Returned errors
          /\ js_truthy errors = true /\ t = ThrownValue errors) ->
    (forall modID,
        cooldownPassed ("getMod_" ++ modID) now cachedFetch = true ->
        getMod_request now later response modID cachedFetch = (Threw t, cachedFetch))
    /\ (forall modID,
           cooldownPassed ("getModVersions_" ++ modID) now cachedFetch = true ->
           getModVersions_request now later response modID cachedFetch
           = (Threw t, cachedFetch))
    /\ (cooldownPassed "getSMLVersions" now cachedFetch = true ->
        getAvailableSMLVersions_request now later response cachedFetch
        = (Threw t, cachedFetch)).
Proof.
  intros now later response cachedFetch t H.
  assert (H' : response = Threw t
               \/ (exists res errors,
                     response = Returned res /\ js_get res "errors" = Returned errors
                     /\ js_truthy errors = true /\ t = ThrownValue errors)
               \/ (exists res errors,
                     response = Returned res /\ js_get res "errors" = Returned errors
                     /\ js_truthy errors = false
                     /\ (fun _ : Json => @Threw Json t) res = Threw t))
    by (destruct H as [H|H]; [now left | right; now left]).
  repeat split; intros; apply cachedRequest_throws; auto;
    destruct H as [H|H]; [now left | right; now left | now left | right; now left
                         | now left | right; now left].
Qed.

(** X19: a mod the catalog does not know.  When the answer has no errors and
    its [getMod] field is [null], [getModVersions] throws
    [ModNotFoundError] and stores nothing, while [getMod] returns [null] and
    stores it, so that within the cooldown [getMod] answers [null] again
    without asking. *)
Theorem unknown_mod_requests :
  forall (now later : Z) (res errors : Json) (modID : string) (cachedFetch : RequestCache),
    js_get res "errors" = Returned errors -> js_truthy errors = false ->
    js_get res "getMod" = Returned JNull ->
    (cooldownPassed ("getModVersions_" ++ modID) now cachedFetch = true ->
     getModVersions_request now later (Returned res) modID cachedFetch
     = (Threw (ThrownError (ModNotFoundError ("Mod " ++ modID ++ " not found"))),
        cachedFetch))
    /\ (cooldownPassed ("getMod_" ++ modID) now cachedFetch = true ->
        getMod_request now later (Returned res) modID cachedFetch
        = (Returned JNull, setCache ("getMod_" ++ modID) JNull later cachedFetch)
        /\ forall now2 later2 response2,
             (now2 - later <= 300000)%Z ->
             getMod_request now2 later2 response2 modID
               (setCache ("getMod_" ++ modID) JNull later cachedFetch)
             = (Returned JNull, setCache ("getMod_" ++ modID) JNull later cachedFetch)).
Proof.
  intros now later res errors modID cachedFetch Herrors Hfalsy Hmod. split.
  - intros Hpassed. apply cachedRequest_throws; [exact Hpassed|].
    right. right. exists res, errors. repeat split; auto. now rewrite Hmod.
  - intros Hpassed.
    destruct (cachedRequest_stores now later res errors JNull ("getMod_" ++ modID)
                (fun res => js_get res "getMod") cachedFetch Hpassed Herrors Hfalsy Hmod)
      as [Hcall Hstored].
    split; [exact Hcall|]. intros now2 later2 response2 Hfresh.
    apply (cachedRequest_hit now2 later2 response2 _ _ _ (mkFetch later JNull));
      [exact Hstored | exact Hfresh].
Qed.

End RequestCacheProperties.

(** * The further properties on the small catalog *)

(** The mod cache of the small catalog keeps its contract. *)
Lemma catalog_coherent : coherent_cache catalog.
Proof.
  intros i v modData H. cbn [getCachedMod catalog] in H. unfold modCache in H.
  repeat match type of H with
         | context [String.eqb ?a ?b] =>
             destruct (String.eqb_spec a b); subst; simpl in H
         end;
    inversion H; subst; simpl; auto.
Qed.


Lemma fromLockfile_toLockfile_witness :
  fromLockfile (toLockfile [modA; modB2]) [] = (Ok tt, map unmarked [modA; modB2])
  /\ Object_keys (toLockfile [modA; modB2]) = map id [modA; modB2].
Proof.
  assert (h1 : unique_ids [modA; modB2]) by unique_ids_by_listing.
  assert (h2 : forall n, In n [modA; modB2] -> index_like (id n) = false)
    by (intros n [<-|[<-|[]]]; reflexivity).
  assert (h3 : forall n, In n [modA; modB2] -> String.eqb (id n) "__proto__" = false)
    by (intros n [<-|[<-|[]]]; reflexivity).
  exact (fromLockfile_toLockfile [modA; modB2] h1 h2 h3).
Defined.

Lemma settled_valid : forall node, In node settled -> node_valid semver settled node.
Proof.
  intros node Hin dependency Hdep. unfold settled in Hin. simpl in Hin.
  destruct Hin as [<-|[<-|[<-|[<-|[]]]]]; simpl in Hdep;
    try contradiction; destruct Hdep as [<-|[]];
    eexists; split; vm_compute; reflexivity.
Qed.

Lemma validateAll_valid_graph_witness :
  (forall node, In node settled -> validate semver catalog node settled = (Ok tt, settled))
  /\ validateAll semver catalog 5 settled = (Some (Ok tt), settled).
Proof.
  assert (h : List.length settled < 5) by (simpl; lia).
  exact (validateAll_valid_graph semver catalog settled 5 settled_valid h).
Defined.

Lemma validate_sound_witness :
  node_valid semver [modA; modB2] modA /\ In modA [modA; modB2] /\ unique_ids [modA; modB2].
Proof.
  assert (h1 : unique_ids [modA]) by unique_ids_by_listing.
  assert (h2 : In modA [modA]) by (simpl; auto).
  assert (h3 : NoDup (Object_keys (dependencies modA)))
    by (simpl; repeat (constructor; [simpl; intuition discriminate|]); constructor).
  assert (h4 : obj_in (id modA) (dependencies modA) = false) by reflexivity.
  assert (h5 : validate semver catalog modA [modA] = (Ok tt, [modA; modB2]))
    by (vm_compute; reflexivity).
  exact (validate_sound semver catalog modA [modA] [modA; modB2] catalog_coherent
           h1 h2 h3 h4 h5).
Defined.

Lemma manifest_set_unchanged_witness :
  (forall node, In modA (snd (validate semver catalog node [modA])) <-> In modA [modA])
  /\ (forall fuel, In modA (snd (validateAll semver catalog fuel [modA])) <-> In modA [modA]).
Proof.
  assert (h : truthy_bool (isInManifest modA) = true) by reflexivity.
  exact (manifest_set_unchanged semver catalog modA [modA] h).
Defined.

Lemma unique_ids_preserved_witness :
  (forall node, unique_ids (snd (validate semver catalog node [modE; modD1])))
  /\ (forall fuel, unique_ids (snd (validateAll semver catalog fuel [modE; modD1]))).
Proof.
  assert (h : unique_ids [modE; modD1]) by unique_ids_by_listing.
  exact (unique_ids_preserved semver catalog [modE; modD1] h).
Defined.

Lemma missing_dependency_witness :
  validate semver catalog modG [modG]
  = (Err (UnsolvableDependencyError "No version found for dependency modC of modG"),
     [modG]).
Proof.
  assert (h1 : dependencies modG = ([] ++ ("modC", ">=1.0.0") :: [])%list) by reflexivity.
  assert (h2 : forEachAsync [] (validateDependency semver catalog modG) [modG]
               = (Ok tt, [modG])) by reflexivity.
  assert (h3 : find (has_id "modC") [modG] = None) by reflexivity.
  assert (h4 : candidates semver catalog "modC" [modG] = Ok []) by (vm_compute; reflexivity).
  exact (missing_dependency_unsolvable semver catalog modG [] [] "modC" ">=1.0.0"
           [modG] [modG] h1 h2 h3 h4).
Defined.

Lemma catalog_rejection_witness :
  (forall e, candidates semver catalog "modZ" [modJ] = Err e ->
             validate semver catalog modJ [modJ] = (Err e, [modJ]))
  /\ (String.eqb "modZ" "SML" = false -> getMod catalog "modZ" = Ok None ->
      validate semver catalog modJ [modJ]
      = (Err (OtherError "TypeError: Cannot read property 'versions' of null"), [modJ])).
Proof.
  assert (h1 : dependencies modJ = ([] ++ ("modZ", ">=1.0.0") :: [])%list) by reflexivity.
  assert (h2 : forEachAsync [] (validateDependency semver catalog modJ) [modJ]
               = (Ok tt, [modJ])) by reflexivity.
  assert (h3 : needs_resolving semver (find (has_id "modZ") [modJ]) ">=1.0.0" = true)
    by reflexivity.
  exact (catalog_rejection_propagates semver catalog modJ [] [] "modZ" ">=1.0.0"
           [modJ] [modJ] h1 h2 h3).
Defined.

Lemma findVersionMatchingAll_witness :
  findVersionMatchingAll semver catalog "modD" [">=1.0.0"]
  = match findAllVersionsMatchingAll semver catalog "modD" [">=1.0.0"] with
    | Ok versions => Ok (hd_error versions)
    | Err e => Err e
    end.
Proof.
  assert (h : String.eqb "modD" "SML" = false) by reflexivity.
  exact (findVersionMatchingAll_first semver catalog "modD" [">=1.0.0"] h).
Defined.

(** [modD] is listed as 1.0.0, 2.0.0: the first match is 1.0.0, the latest
    release is 2.0.0. *)
Example first_match_is_not_latest :
  findVersionMatchingAll semver catalog "modD" [">=1.0.0"] = Ok (Some "1.0.0")
  /\ getModLatestVersion semver modVersions "modD" = Ok (Some (appVersion "modD" "2.0.0"))
  /\ getLatestSMLVersion semver catalog = Ok (Some (mkSMLVersion "2.0.0" 109000)).
Proof. repeat split; vm_compute; reflexivity. Qed.

Lemma semver_compare_consistent_on_versions : consistent_on_versions semver.
Proof.
  destruct semver_compare_consistent as [Hanti Htrans]. split.
  - intros a b _ _. apply Hanti.
  - intros a b c _ _ _. apply Htrans.
Qed.

(** The loader releases of the small catalog are all versions: the latest is
    found.  Of two releases of which one is named [latest], none is. *)
Lemma latest_version_witness :
  (exists latest,
      getLatestSMLVersion semver catalog = Ok (Some latest)
      /\ In latest smlVersions
      /\ forall v, In v smlVersions ->
                   (compare semver (smlv_version v) (smlv_version latest) <= 0)%Z)
  /\ getModLatestVersion semver brokenVersions "modD"
     = Err (OtherError "TypeError: Invalid Version").
Proof.
  destruct (latest_version_is_highest semver catalog
              semver_compare_consistent_on_versions brokenVersions) as [Hsml [Hmod _]].
  split.
  - destruct (Hsml smlVersions eq_refl) as [_ [_ [_ H]]]. apply H.
    + intros v [<-|[<-|[<-|[]]]]; reflexivity.
    + discriminate.
  - destruct (Hmod "modD" _ eq_refl) as [_ [_ [H _]]]. apply H.
    + simpl. lia.
    + exists (appVersion "modD" "latest"). split; [simpl; auto | reflexivity].
Defined.

Lemma requests_served_witness :
  (forall modID,
      obj_get cache1 ("getMod_" ++ modID) = Some (mkFetch 1000 (JString "cached")) ->
      getMod_request 301000 301001 (Returned answer_mod) modID cache1
      = (Returned (JString "cached"), cache1))
  /\ (forall modID,
         obj_get cache1 ("getModVersions_" ++ modID) = Some (mkFetch 1000 (JString "cached")) ->
         getModVersions_request 301000 301001 (Returned answer_mod) modID cache1
         = (Returned (JString "cached"), cache1))
  /\ (obj_get cache1 "getSMLVersions" = Some (mkFetch 1000 (JString "cached")) ->
      getAvailableSMLVersions_request 301000 301001 (Returned answer_mod) cache1
      = (Returned (JString "cached"), cache1)).
Proof.
  assert (h : (301000 - fetch_time (mkFetch 1000 (JString "cached")) <= 300000)%Z)
    by (simpl; lia).
  exact (requests_served_from_cache 301000 301001 (Returned answer_mod) cache1
           (mkFetch 1000 (JString "cached")) h).
Defined.

(** One millisecond later the cached answer has expired and the server's
    answer replaces it. *)
Example cache_expiry :
  getMod_request 301000 301005 (Returned answer_mod) "modB" cache1
  = (Returned (JString "cached"), cache1)
  /\ getMod_request 301001 301005 (Returned answer_mod) "modB" cache1
     = (Returned (JObject [("id", JString "modB"); ("versions", JArray [])]),
        [("getMod_modB",
          mkFetch 301005 (JObject [("id", JString "modB"); ("versions", JArray [])]))]).
Proof. split; vm_compute; reflexivity. Qed.

Lemma getMod_fetch_witness :
  exists cachedFetch',
    getMod_request 0 5 (Returned answer_mod) "modB" []
    = (Returned (JObject [("id", JString "modB"); ("versions", JArray [])]), cachedFetch')
    /\ getMod_request 300005 300009 (Returned answer_errors) "modB" cachedFetch'
       = (Returned (JObject [("id", JString "modB"); ("versions", JArray [])]),
          cachedFetch').
Proof.
  assert (h1 : cooldownPassed ("getMod_" ++ "modB") 0 [] = true) by reflexivity.
  assert (h2 : js_get answer_mod "errors" = Returned JUndefined) by reflexivity.
  assert (h3 : js_truthy JUndefined = false) by reflexivity.
  assert (h4 : js_get answer_mod "getMod"
               = Returned (JObject [("id", JString "modB"); ("versions", JArray [])]))
    by reflexivity.
  assert (h5 : (300005 - 5 <= 300000)%Z) by lia.
  exact (getMod_fetch_then_cached 0 5 300005 300009 answer_mod JUndefined _
           (Returned answer_errors) "modB" [] h1 h2 h3 h4 h5).
Defined.

Lemma request_errors_witness :
  (forall modID,
      cooldownPassed ("getMod_" ++ modID) 400000 cache1 = true ->
      getMod_request 400000 400001 (Returned answer_errors) modID cache1
      = (Threw (ThrownValue (JArray [JObject [("message", JString "bad query")]])), cache1))
  /\ (forall modID,
         cooldownPassed ("getModVersions_" ++ modID) 400000 cache1 = true ->
         getModVersions_request 400000 400001 (Returned answer_errors) modID cache1
         = (Threw (ThrownValue (JArray [JObject [("message", JString "bad query")]])),
            cache1))
  /\ (cooldownPassed "getSMLVersions" 400000 cache1 = true ->
      getAvailableSMLVersions_request 400000 400001 (Returned answer_errors) cache1
      = (Threw (ThrownValue (JArray [JObject [("message", JString "bad query")]])),
         cache1)).
Proof.
  assert (h : Returned answer_errors
              = Threw (ThrownValue (JArray [JObject [("message", JString "bad query")]]))
              \/ exists res errors,
                   Returned answer_errors = Returned res
                   /\ js_get res "errors" = Returned errors
                   /\ js_truthy errors = true
                   /\ ThrownValue (JArray [JObject [("message", JString "bad query")]])
                      = ThrownValue errors).
  { right. exists answer_errors, (JArray [JObject [("message", JString "bad query")]]).
    repeat split. }
  exact (request_errors_not_cached 400000 400001 (Returned answer_errors) cache1 _ h).
Defined.

Lemma unknown_mod_witness :
  (cooldownPassed ("getModVersions_" ++ "modZ") 0 [] = true ->
   getModVersions_request 0 5 (Returned answer_unknown) "modZ" []
   = (Threw (ThrownError (ModNotFoundError ("Mod " ++ "modZ" ++ " not found"))), []))
  /\ (cooldownPassed ("getMod_" ++ "modZ") 0 [] = true ->
      getMod_request 0 5 (Returned answer_unknown) "modZ" []
      = (Returned JNull, setCache ("getMod_" ++ "modZ") JNull 5 [])
      /\ forall now2 later2 response2,
           (now2 - 5 <= 300000)%Z ->
           getMod_request now2 later2 response2 "modZ"
             (setCache ("getMod_" ++ "modZ") JNull 5 [])
           = (Returned JNull, setCache ("getMod_" ++ "modZ") JNull 5 [])).
Proof.
  assert (h1 : js_get answer_unknown "errors" = Returned JUndefined) by reflexivity.
  assert (h2 : js_truthy JUndefined = false) by reflexivity.
  assert (h3 : js_get answer_unknown "getMod" = Returned JNull) by reflexivity.
  exact (unknown_mod_requests 0 5 answer_unknown JUndefined "modZ" [] h1 h2 h3).
Defined.

(** * The highest candidate *)

Section HighestCandidate.

Variable semver : Semver.
Variable catalog : Catalog.
Hypothesis comparator : consistent_comparator semver.

(** C6, as the code has it: the candidates are sorted ascending and the one
    popped from the end is bound without being validated, provided
    [getItemData] delivers it.  In a graph with unique ids and with a mod
    cache that delivers what is asked for: the sorted array is ascending for
    [compare]; the version popped is one of the versions the catalog
    returned, no candidate is above it, and it satisfies every constraint
    that a node of the graph declares on the dependency (the set C); of two
    candidates [v1 < v2] it is never [v1], and it is [v2] when these are the
    only two; and [validate] returns for the dependency with the node that
    [getItemData] gives appended to the graph, a node of the dependency's id
    at the version popped, which is the node then found for that id.  Whether
    a lower candidate would pass validation, or the one popped would not,
    plays no part. *)
Theorem highest_candidate_selected :
  forall (node : LockfileGraphNode) (dependencyID versionConstraint : string)
         (nodes : list LockfileGraphNode) (versions : list string)
         (top : string) (rest : list string) (itemData : LockfileGraphNode),
    let nodes1 := without_found (find (has_id dependencyID) nodes) nodes in
    coherent_cache catalog ->
    unique_ids nodes ->
    needs_resolving semver (find (has_id dependencyID) nodes) versionConstraint = true ->
    candidates semver catalog dependencyID nodes1 = Ok versions ->
    rev (Array_sort semver versions) = top :: rest ->
    String.eqb top "" = false ->
    getItemData semver catalog dependencyID top = Ok itemData ->
    StronglySorted (version_le semver) (Array_sort semver versions)
    /\ In top versions
    /\ (forall v, In v versions -> (compare semver v top <= 0)%Z)
    /\ (forall n c, In n nodes1 -> obj_get (dependencies n) dependencyID = Some c ->
                    satisfies semver top c = true)
    /\ (forall v1 v2, In v1 versions -> In v2 versions ->
                      (compare semver v1 v2 < 0)%Z -> top <> v1)
    /\ (forall v1 v2, In v2 versions -> (forall v, In v versions -> v = v1 \/ v = v2) ->
                      (compare semver v1 v2 < 0)%Z -> top = v2)
    /\ validateDependency semver catalog node (dependencyID, versionConstraint) nodes
       = (Ok tt, (nodes1 ++ [itemData])%list)
    /\ id itemData = dependencyID
    /\ version itemData = top
    /\ find (has_id dependencyID) (nodes1 ++ [itemData])%list = Some itemData.
Proof.
  intros node dependencyID versionConstraint nodes versions top rest itemData nodes1
         Hcache Huniq Hneeds Hcands Hstack Htop Hdata.
  destruct (popped_is_greatest semver comparator _ _ _ Hstack) as [Hin Hmax].
  destruct (getItemData_coherent semver catalog _ _ _ Hcache Hdata) as [Hid Hversion].
  assert (Hfree : existsb (has_id dependencyID) nodes1 = false).
  { unfold nodes1. destruct (find (has_id dependencyID) nodes) as [d|] eqn:Hfind; simpl.
    - destruct (find_has_id _ _ _ Hfind) as [Hd <-]. now apply unique_ids_remove.
    - now apply find_none_existsb. }
  assert (Hnot : forall v1 v2, In v1 versions -> In v2 versions ->
                               (compare semver v1 v2 < 0)%Z -> top <> v1).
  { intros v1 v2 _ H2 Hlt ->. specialize (Hmax v2 H2).
    destruct comparator as [Hanti _]. specialize (Hanti v1 v2).
    destruct (Z.sgn_spec (compare semver v1 v2)) as [[? ?]|[[? ?]|[? ?]]];
    destruct (Z.sgn_spec (compare semver v2 v1)) as [[? ?]|[[? ?]|[? ?]]]; lia. }
  split; [apply Array_sort_sorted; exact comparator|].
  split; [exact Hin|]. split; [exact Hmax|]. split; [|split; [exact Hnot|split; [|split]]].
  - intros n c Hn Hget.
    pose proof (candidates_satisfy semver catalog _ _ _ _ Hcands Hin) as Hall.
    unfold versionSatisfiesAll in Hall. rewrite forallb_forall in Hall. apply Hall.
    unfold collectConstraints. apply in_map_iff. exists n. rewrite Hget.
    split; [reflexivity|]. apply filter_In. split; [exact Hn|].
    apply obj_in_get. eauto.
  - intros v1 v2 H2 Honly Hlt.
    destruct (Honly top Hin) as [E | E]; [|exact E].
    exfalso. apply (Hnot v1 v2); auto. rewrite <- E. exact Hin.
  - destruct (first_candidate_bound semver catalog node dependencyID versionConstraint
                nodes versions top rest itemData Hneeds Hcands Hstack Htop Hdata)
      as [_ H].
    rewrite H. rewrite add_result. cbn [snd]. fold nodes1. now rewrite Hid, Hfree.
  - split; [exact Hid|]. split; [exact Hversion|].
    rewrite find_app_split, (existsb_none_find _ _ Hfree). simpl.
    unfold has_id. now rewrite Hid, String.eqb_refl.
Qed.

End HighestCandidate.

(** C6: the catalog lists [modB] as 2.0.0, 1.0.0; sorted and popped, 2.0.0 is
    the version bound; it satisfies the constraint [>=1.0.0] that [modA]
    declares. *)
Lemma highest_candidate_witness :
  StronglySorted (version_le semver) (Array_sort semver ["2.0.0"; "1.0.0"])
  /\ In "2.0.0" ["2.0.0"; "1.0.0"]
  /\ (forall v, In v ["2.0.0"; "1.0.0"] -> (compare semver v "2.0.0" <= 0)%Z)
  /\ (forall n c, In n [modA] -> obj_get (dependencies n) "modB" = Some c ->
                  satisfies semver "2.0.0" c = true)
  /\ (forall v1 v2, In v1 ["2.0.0"; "1.0.0"] -> In v2 ["2.0.0"; "1.0.0"] ->
                    (compare semver v1 v2 < 0)%Z -> "2.0.0" <> v1)
  /\ (forall v1 v2, In v2 ["2.0.0"; "1.0.0"] ->
                    (forall v, In v ["2.0.0"; "1.0.0"] -> v = v1 \/ v = v2) ->
                    (compare semver v1 v2 < 0)%Z -> "2.0.0" = v2)
  /\ validateDependency semver catalog modA ("modB", ">=1.0.0") [modA]
     = (Ok tt, [modA; modB2])
  /\ id modB2 = "modB"
  /\ version modB2 = "2.0.0"
  /\ find (has_id "modB") [modA; modB2] = Some modB2.
Proof.
  assert (h0 : unique_ids [modA]) by unique_ids_by_listing.
  assert (h1 : needs_resolving semver (find (has_id "modB") [modA]) ">=1.0.0" = true)
    by (vm_compute; reflexivity).
  assert (h2 : candidates semver catalog "modB"
                 (without_found (find (has_id "modB") [modA]) [modA])
               = Ok ["2.0.0"; "1.0.0"]) by (vm_compute; reflexivity).
  assert (h3 : rev (Array_sort semver ["2.0.0"; "1.0.0"]) = ["2.0.0"; "1.0.0"])
    by (vm_compute; reflexivity).
  assert (h4 : String.eqb "2.0.0" "" = false) by reflexivity.
  assert (h5 : getItemData semver catalog "modB" "2.0.0" = Ok modB2)
    by (vm_compute; reflexivity).
  exact (highest_candidate_selected semver catalog semver_compare_consistent modA "modB"
           ">=1.0.0" [modA] ["2.0.0"; "1.0.0"] "2.0.0" ["1.0.0"] modB2
           catalog_coherent h0 h1 h2 h3 h4 h5).
Defined.

(** C6 does not hold as worded: [modK] needs any [modT]; the candidates are
    1.0.0, 2.0.0 and 3.0.0; 1.0.0 and 2.0.0 each pass validation when added
    alone, and 1.0.0 < 2.0.0; 3.0.0 does not pass, for want of a [modC].  The
    dependency is bound to 3.0.0, not to 2.0.0. *)
Lemma higher_untested_candidate_bound :
  candidates semver catalog3 "modT" [modK] = Ok ["1.0.0"; "3.0.0"; "2.0.0"]
  /\ (compare semver "1.0.0" "2.0.0" < 0)%Z
  /\ getItemData semver catalog3 "modT" "1.0.0" = Ok modT1
  /\ getItemData semver catalog3 "modT" "2.0.0" = Ok modT2
  /\ validate semver catalog3 modT1 [modK; modT1] = (Ok tt, [modK; modT1])
  /\ validate semver catalog3 modT2 [modK; modT2] = (Ok tt, [modK; modT2])
  /\ validate semver catalog3 modT3 [modK; modT3]
     = (Err (UnsolvableDependencyError "No version found for dependency modC of modT"),
        [modK; modT3])
  /\ validate semver catalog3 modK [modK] = (Ok tt, [modK; modT3])
  /\ version modT3 = "3.0.0"
  /\ ~ binds_higher_of_two semver catalog3.
Proof.
  repeat split; try (vm_compute; reflexivity).
  intros H.
  destruct (H modK "modT" ">=1.0.0" [modK] ["1.0.0"; "3.0.0"; "2.0.0"] "1.0.0" "2.0.0"
              modT1 modT2 [modK; modT3])
    as [d [Hd [Hid Hversion]]];
    try (vm_compute; reflexivity); try (simpl; auto; fail).
  destruct Hd as [<-|[<-|[]]]; discriminate.
Qed.
